(** * Hashira polynomial reconstruction: base conversion and root expansion

    A shallow embedding of [src/polynomialSolver.js], of the base
    conversion module ([convertToDecimal] and its helpers) and of what
    [src/index.js] does with the parsed input file, followed by the
    properties of the specification that can be stated about them and by
    further properties of the code.

    JavaScript has a single numeric type, the IEEE-754 binary64 double.
    Every [+], [*], unary [-], [Math.abs] and [>] of the source is therefore
    an operation on doubles.  They are modelled by the Standard Library's
    executable specification of binary floating point ([SpecFloat],
    instantiated at precision 53 and maximal exponent 1024), which rounds
    to nearest, ties to even, exactly as the language requires. *)

From Stdlib Require Import ZArith Lia Bool.
From Stdlib Require Ascii String.
Import String.StringSyntax.
From Stdlib Require Import Floats.SpecFloat.
From stdpp Require Import base list.

Local Open Scope Z_scope.

(** ** Errors thrown by the program *)

(** A JavaScript string is a sequence of UTF-16 code units. *)
Definition jsstring := list N.

(** Code units of a literal (for readable examples). *)
Definition str (s : String.string) : jsstring :=
  map Ascii.N_of_ascii (String.list_ascii_of_string s).
Arguments str s%_string_scope.

(** One constructor per [throw] site (or throwing built-in) of the source. *)
Inductive error : Type :=
  | UnsupportedBase (base : Z)
      (* `Base ${base} is not supported. Must be between 2 and 16.` *)
  | EmptyValue
      (* 'Value must be a non-empty string.' *)
  | InvalidValue (value : jsstring) (base : Z)
      (* `Invalid value "${value}" for base ${base}.` *)
  | NoRoots
      (* 'At least one root is required to build a polynomial.' *)
  | InvalidArrayLength.
      (* RangeError raised by [new Array(-1)] *)

(** The error taxonomy of the specification. *)
Inductive error_kind : Type :=
  | InvalidBase | InvalidDigitString | EmptyRootSet | RangeError.

Definition kind_of (e : error) : error_kind :=
  match e with
  | UnsupportedBase _ => InvalidBase
  | EmptyValue => InvalidDigitString
  | InvalidValue _ _ => InvalidDigitString
  | NoRoots => EmptyRootSet
  | InvalidArrayLength => RangeError
  end.

(** A function either returns a value or throws. *)
Inductive result (A : Type) : Type :=
  | Ok (a : A)
  | Err (e : error).
Arguments Ok {A} a.
Arguments Err {A} e.

Definition bind {A B} (r : result A) (k : A -> result B) : result B :=
  match r with
  | Ok a => k a
  | Err e => Err e
  end.

Notation "'let*' x ':=' r 'in' k" := (bind r (fun x => k))
  (at level 10, x name, r at level 100, k at level 200).

(** ** Numbers *)

(** The arithmetic the solver needs.  The source is written once against
    this interface and run on doubles ([number], what the program does),
    on unbounded integers ([Z], the mathematical reference) and on
    integers that give up as soon as a value leaves the range in which
    doubles are exact ([option Z]). *)
Class Arith (num : Type) : Type := {
  num_zero : num;                  (* the literal 0 *)
  num_one : num;                   (* the literal 1 *)
  num_undef : num;                 (* what reading past the end of an array
                                      contributes to arithmetic *)
  num_add : num -> num -> num;     (* a + b *)
  num_mul : num -> num -> num;     (* a * b *)
  num_neg : num -> num             (* -a *)
}.

(** *** Doubles *)

Definition number : Type := spec_float.

Definition prec : Z := 53.
Definition emax : Z := 1024.

(** The double nearest to an integer (ties to even, overflow to an
    infinity); the value of an integer literal. *)
Definition Z2num (z : Z) : number := binary_normalize prec emax z 0 false.

Definition js_nan : number := S754_nan.
Definition js_zero : number := S754_zero false.
(** 1 = 2^52 * 2^-52 *)
Definition js_one : number := S754_finite false 4503599627370496 (-52).
Definition js_add : number -> number -> number := SFadd prec emax.
Definition js_mul : number -> number -> number := SFmul prec emax.
Definition js_neg : number -> number := SFopp.
Definition js_abs : number -> number := SFabs.
(** [a > b] *)
Definition js_gt (a b : number) : bool := SFltb b a.
Definition isNaN (a : number) : bool :=
  match a with S754_nan => true | _ => false end.

(** [undefined] is converted to NaN by [+] and [*]. *)
#[export] Instance js_arith : Arith number := {|
  num_zero := js_zero; num_one := js_one; num_undef := js_nan;
  num_add := js_add; num_mul := js_mul; num_neg := js_neg |}.

(** The integer a double stands for, when it is finite and integral
    (both zeros stand for 0). *)
Definition num2Z (f : number) : option Z :=
  match f with
  | S754_zero _ => Some 0
  | S754_finite s m e =>
      let v := if (0 <=? e) then Some (Zpos m * 2 ^ e)
               else if (Zpos m mod 2 ^ (- e) =? 0) then Some (Zpos m / 2 ^ (- e))
               else None in
      (if s then Z.opp else id) <$> v
  | _ => None
  end.

(** *** Unbounded integers *)

#[export] Instance Z_arith : Arith Z := {|
  num_zero := 0; num_one := 1; num_undef := 0;
  num_add := Z.add; num_mul := Z.mul; num_neg := Z.opp |}.

(** *** Integers confined to what a double can hold *)

(** [f] is a double whose value is the integer [z]. *)
Definition rep (f : number) (z : Z) : Prop :=
  valid_binary prec emax f = true /\ num2Z f = Some z.

(** The integer [z] is a double: converting it loses nothing. *)
Definition exact (z : Z) : bool :=
  valid_binary prec emax (Z2num z) && bool_decide (num2Z (Z2num z) = Some z).

Definition check (z : Z) : option Z := if exact z then Some z else None.

(** Integer arithmetic that gives up ([None]) at the first result a
    double cannot hold. *)
#[export] Instance checked_arith : Arith (option Z) := {|
  num_zero := Some 0; num_one := Some 1; num_undef := None;
  num_add a b := a ← a; b ← b; check (a + b);
  num_mul a b := a ← a; b ← b; check (a * b);
  num_neg a := Z.opp <$> a |}.

(** ** [polynomialSolver.js] *)

Section Solver.
Context {num : Type} `{Arith num}.

(** [a[i]] *)
Definition get (a : list num) (i : nat) : num := default num_undef (a !! i).

(** [a[i] = x]: an assignment past the end grows the array, leaving
    holes before the new element. *)
Definition assign (a : list num) (i : nat) (x : num) : list num :=
  if (i <? length a)%nat then <[i := x]> a
  else a ++ replicate (i - length a) num_undef ++ [x].

Definition multiplyPolynomials (poly1 poly2 : list num) : result (list num) :=
  if (length poly1 + length poly2 =? 0)%nat then Err InvalidArrayLength
  else
    let result := replicate (length poly1 + length poly2 - 1) num_zero in
    Ok (foldl (fun result i =>
          foldl (fun result j =>
            assign result (i + j)
              (num_add (get result (i + j))
                       (num_mul (get poly1 i) (get poly2 j))))
            result (seq 0 (length poly2)))
          result (seq 0 (length poly1))).

Fixpoint buildPolynomial_loop (polynomial roots : list num)
  : result (list num) :=
  match roots with
  | [] => Ok polynomial
  | root :: roots =>
      let factor := [num_neg root; num_one] in
      let* polynomial := multiplyPolynomials polynomial factor in
      buildPolynomial_loop polynomial roots
  end.

Definition buildPolynomial (roots : list num) : result (list num) :=
  if (length roots =? 0)%nat then Err NoRoots
  else buildPolynomial_loop [num_one] roots.

Definition evaluatePolynomial (coefficients : list num) (x : num) : num :=
  fst (foldl (fun '(result, power) i =>
                (num_add result (num_mul (get coefficients i) power),
                 num_mul power x))
         (num_zero, num_one) (seq 0 (length coefficients))).
End Solver.

(** ** What the loops compute *)

Section Loops.
Context {num : Type} `{Arith num}.

(** The sum of [poly1[i] * poly2[j]] over [i + j = t], accumulated the
    way the nested loops of [multiplyPolynomials] do: from 0, by
    increasing [i].  [term] adds the product for one [i], if there is
    one. *)
Definition term (poly1 poly2 : list num) (t : nat) (acc : num) (i : nat) : num :=
  if (i <=? t)%nat && (t - i <? length poly2)%nat
  then num_add acc (num_mul (get poly1 i) (get poly2 (t - i)))
  else acc.

Definition convolution (poly1 poly2 : list num) (t : nat) : num :=
  foldl (term poly1 poly2 t) num_zero (seq 0 (length poly1)).

(** The product of [polynomial] and the two-term factor [[a; b]], where
    [carry] is what the coefficient under construction has received. *)
Fixpoint linear (a b carry : num) (polynomial : list num) : list num :=
  match polynomial with
  | [] => [carry]
  | c :: polynomial =>
      num_add carry (num_mul c a)
      :: linear a b (num_add num_zero (num_mul c b)) polynomial
  end.

(** The inner loop of [multiplyPolynomials], run for [j] below [k]. *)
Definition inner (poly1 poly2 : list num) (i : nat) (result : list num) (k : nat)
  : list num :=
  foldl (fun result j =>
           assign result (i + j)
             (num_add (get result (i + j)) (num_mul (get poly1 i) (get poly2 j))))
    result (seq 0 k).

(** Its outer loop, run for [i] below [k]. *)
Definition outer (poly1 poly2 : list num) (result : list num) (k : nat) : list num :=
  foldl (fun result i => inner poly1 poly2 i result (length poly2)) result (seq 0 k).

(** What [buildPolynomial] computes from [polynomial], in closed form. *)
Definition expand (polynomial roots : list num) : list num :=
  foldl (fun polynomial root => linear (num_neg root) num_one num_zero polynomial)
    polynomial roots.
End Loops.

(** [1e-10], the double the literal denotes:
    0x1.b7cdfd9d7bdbbp-34 = 7737125245533627 * 2^-86. *)
Definition tolerance : number := S754_finite false 7737125245533627 (-86).

(** The [console.warn] issued before [return false] is not modelled. *)
Fixpoint verifyRoots (coefficients roots : list number) : bool :=
  match roots with
  | [] => true
  | root :: roots =>
      let value := evaluatePolynomial coefficients root in
      if js_gt (js_abs value) tolerance then false
      else verifyRoots coefficients roots
  end.


(** ** Base conversion *)

(** The built-in [parseInt(string, radix)] of ECMAScript (sec. 19.2.5),
    for an integral [radix]: white space is skipped, a sign and, in base
    16, a prefix 0x are accepted, and the longest run of digits that follows
    is read; whatever comes after it is ignored.  The integer read is
    converted to the nearest double.  (The standard lets an implementation
    approximate integers of more than 20 significant decimal digits, or
    written in a radix that is not a power of 2; nothing below depends on
    strings that long.) *)

(** WhiteSpace and LineTerminator code units. *)
Definition isWhiteSpace (c : N) : bool :=
  existsb (N.eqb c)
    [9; 10; 11; 12; 13; 32; 160; 5760; 8232; 8233; 8239; 8287; 12288; 65279]%N
  || ((8192 <=? c) && (c <=? 8202))%N.

Fixpoint trimStart (string : jsstring) : jsstring :=
  match string with
  | c :: rest => if isWhiteSpace c then trimStart rest else string
  | [] => []
  end.

(** Value of a digit or letter: 0-9, a-z, A-Z. *)
Definition digitValue (c : N) : option Z :=
  if ((48 <=? c) && (c <=? 57))%N then Some (Z.of_N c - 48)
  else if ((97 <=? c) && (c <=? 122))%N then Some (Z.of_N c - 87)
  else if ((65 <=? c) && (c <=? 90))%N then Some (Z.of_N c - 55)
  else None.

(** A radix-R digit and its value. *)
Definition radixDigit (R : Z) (c : N) : option Z :=
  match digitValue c with
  | Some d => if d <? R then Some d else None
  | None => None
  end.

(** The values of the longest prefix of the string made of radix-R digits. *)
Fixpoint digitsPrefix (R : Z) (string : jsstring) : list Z :=
  match string with
  | c :: rest =>
      match radixDigit R c with
      | Some d => d :: digitsPrefix R rest
      | None => []
      end
  | [] => []
  end.

(** The integer a sequence of radix-R digit values denotes. *)
Definition mathInt (R : Z) (digits : list Z) : Z :=
  foldl (fun acc d => acc * R + d) 0 digits.

Definition ToInt32 (z : Z) : Z := (z + 2 ^ 31) mod 2 ^ 32 - 2 ^ 31.

Definition parseInt (string : jsstring) (radix : Z) : number :=
  let inputString := trimStart string in
  let '(sign, rest) :=
    match inputString with
    | c :: rest =>
        if (c =? 45)%N then (true, rest)            (* - *)
        else if (c =? 43)%N then (false, rest)      (* + *)
        else (false, inputString)
    | [] => (false, inputString)
    end in
  let R := ToInt32 radix in
  if negb (R =? 0) && ((R <? 2) || (36 <? R)) then js_nan
  else
    let stripPrefix := (R =? 0) || (R =? 16) in
    let R := if R =? 0 then 10 else R in
    let '(R, rest) :=
      match rest with
      | c0 :: c1 :: rest' =>
          if stripPrefix && (c0 =? 48)%N && ((c1 =? 120) || (c1 =? 88))%N
          then (16, rest')                          (* 0x, 0X *)
          else (R, rest)
      | _ => (R, rest)
      end in
    match digitsPrefix R rest with
    | [] => js_nan
    | digits =>
        let m := mathInt R digits in
        if m =? 0 then S754_zero sign
        else Z2num (if sign then - m else m)
    end.

(** [typeof value !== 'string'] cannot hold of a [jsstring]. *)
Definition convertToDecimal (value : jsstring) (base : Z) : result number :=
  if (base <? 2) || (16 <? base) then Err (UnsupportedBase base)
  else if (length value =? 0)%nat then Err EmptyValue
  else
    let decimal := parseInt value base in
    if isNaN decimal then Err (InvalidValue value base)
    else Ok decimal.

Definition isValidNumber (value : jsstring) (base : Z) : bool :=
  match convertToDecimal value base with
  | Ok _ => true
  | Err _ => false
  end.

(** ** Digit strings, as the specification describes them *)

(** The value of a character that is a legal digit in base [b]:
    0-9 and, case-insensitively, a-f, below the base. *)
Definition legalDigit (b : Z) (c : N) : option Z :=
  let d :=
    if ((48 <=? c) && (c <=? 57))%N then Some (Z.of_N c - 48)
    else if ((97 <=? c) && (c <=? 102))%N then Some (Z.of_N c - 97 + 10)
    else if ((65 <=? c) && (c <=? 70))%N then Some (Z.of_N c - 65 + 10)
    else None in
  d ≫= fun d => if d <? b then Some d else None.

(** A non-empty string of legal digits. *)
Definition digitString (b : Z) (value : jsstring) : Prop :=
  value <> [] /\ Forall (fun c => is_Some (legalDigit b c)) value.

(** The integer a string denotes in positional notation, most significant
    digit first. *)
Fixpoint stringValue (b : Z) (value : jsstring) : Z :=
  match value with
  | [] => 0
  | c :: rest =>
      default 0 (legalDigit b c) * b ^ Z.of_nat (length rest) + stringValue b rest
  end.

(** ** Polynomials over the integers *)

(** The value at [x] of the polynomial with coefficients [p], constant term
    first. *)
Fixpoint polyval (p : list Z) (x : Z) : Z :=
  match p with
  | [] => 0
  | c :: p => c + x * polyval p x
  end.

(** (x - r1) * ... * (x - rk) *)
Fixpoint root_product (roots : list Z) (x : Z) : Z :=
  match roots with
  | [] => 1
  | r :: roots => (x - r) * root_product roots x
  end.

(** ** Relating runs of the solver on different arithmetics *)

Inductive result_rel {X Y} (P : X -> Y -> Prop) : result X -> result Y -> Prop :=
  | rel_Ok x y : P x y -> result_rel P (Ok x) (Ok y)
  | rel_Err e : result_rel P (Err e) (Err e).

(** A double next to a checked integer: nothing is claimed once the
    integer computation has given up. *)
Definition R_num (f : number) (o : option Z) : Prop :=
  match o with Some z => rep f z | None => True end.

(** The same for accumulated sums, which are never the negative zero. *)
Definition Rs_num (f : number) (o : option Z) : Prop :=
  match o with Some z => f = Z2num z /\ exact z = true | None => True end.

(** A checked integer next to an unbounded one. *)
Definition R_int (o : option Z) (z : Z) : Prop :=
  match o with Some z' => z' = z | None => True end.

(** What [parseInt] does once white space, sign and prefix are gone: it
    reads the digits at the front of [rest]. *)
Definition readDigits (sign : bool) (R : Z) (rest : jsstring) : number :=
  match digitsPrefix R rest with
  | [] => js_nan
  | digits =>
      let m := mathInt R digits in
      if m =? 0 then S754_zero sign
      else Z2num (if sign then - m else m)
  end.

(** The letters A-Z made lower case, everything else unchanged. *)
Definition asciiLowerCase (value : jsstring) : jsstring :=
  (fun c => if ((65 <=? c) && (c <=? 90))%N then (c + 32)%N else c) <$> value.

(** ** The input file: [index.js] and the callers of [convertToDecimal] *)

(** The value [JSON.parse] returns.  The fields of an object are its own
    properties, in the order in which [for ... in] enumerates them;
    [JSON.parse] creates no other kind of property. *)
Unset Elimination Schemes.
Inductive json : Type :=
  | JNull
  | JBool (b : bool)
  | JNum (n : number)
  | JStr (s : jsstring)
  | JArr (items : list json)
  | JObj (fields : list (jsstring * json)).
Set Elimination Schemes.

(** What reading a property gives: a value of the file, [undefined], or
    a method of a built-in prototype. *)
Inductive jsvalue : Type :=
  | VUndefined
  | VFunction
  | VJson (j : json).

(** One constructor per [throw] site of [index.js] and of the base
    conversion module, and per built-in that throws. *)
Inductive exception : Type :=
  | NullProperty
      (* TypeError: Cannot read properties of null / undefined *)
  | NotPrimitive
      (* TypeError: Cannot convert object to primitive value *)
  | BaseNotSupported (base : number)
      (* `Base ${base} is not supported. Must be between 2 and 16.` *)
  | ValueNotString
      (* 'Value must be a non-empty string.' *)
  | ValueInvalid (value : jsstring) (base : number)
      (* `Invalid value "${value}" for base ${base}.` *)
  | RootIncomplete
      (* 'Each root must have base and value properties.' *)
  | MissingKeys
      (* 'Missing required "keys" object with "n" and "k" properties' *)
  | InvalidN
      (* 'Invalid value for "n": must be a positive integer' *)
  | InvalidK (n : number)
      (* `Invalid value for "k": must be between 1 and ${n}` *)
  | InvalidRootData (key : jsstring)
      (* `Invalid root data for key "${key}": missing base or value` *)
  | RootError (key : jsstring) (cause : exception)
      (* `Error processing root "${key}": ${error.message}` *)
  | NoValidRoots
      (* 'No valid roots found in the input data' *)
  | InsufficientRoots (found : nat) (k : number)
      (* `Insufficient roots: found ${roots.length}, need at least ${k}` *)
  | SolverError (e : error).
      (* thrown by [polynomialSolver.js] *)

Inductive outcome (A : Type) : Type :=
  | Returns (a : A)
  | Throws (e : exception).
Arguments Returns {A} a.
Arguments Throws {A} e.

#[export] Instance outcome_bind : MBind outcome := fun A B k r =>
  match r with
  | Returns a => k a
  | Throws e => Throws e
  end.

Definition solver {A} (r : result A) : outcome A :=
  match r with
  | Ok a => Returns a
  | Err e => Throws (SolverError e)
  end.

(** [Number.prototype.toString()], the decimal text of a double, is left
    open: nothing below depends on how a number is printed. *)
Class NumberToString : Type := numberToString : number -> jsstring.

(** The own property [name] of an object. *)
Fixpoint field (fields : list (jsstring * json)) (name : jsstring) : option json :=
  match fields with
  | [] => None
  | (key, v) :: fields =>
      if bool_decide (key = name) then Some v else field fields name
  end.

(** [v.name], for the names the program reads: keys, n, k, base and value.
    None of them is a property of [Object.prototype], of
    [Function.prototype] or of the prototype of a primitive value, and
    [Array.prototype] has only [keys]. *)
Definition Get (v : jsvalue) (name : jsstring) : outcome jsvalue :=
  match v with
  | VUndefined | VJson JNull => Throws NullProperty
  | VJson (JObj fields) =>
      Returns (from_option VJson VUndefined (field fields name))
  | VJson (JArr _) =>
      Returns (if bool_decide (name = str "keys") then VFunction else VUndefined)
  | _ => Returns VUndefined
  end.

(** The truth value [!v] negates. *)
Definition ToBoolean (v : jsvalue) : bool :=
  match v with
  | VUndefined => false
  | VFunction => true
  | VJson JNull => false
  | VJson (JBool b) => b
  | VJson (JNum n) =>
      match n with S754_zero _ | S754_nan => false | _ => true end
  | VJson (JStr s) => negb (length s =? 0)%nat
  | VJson (JArr _) | VJson (JObj _) => true
  end.

(** [Number.isInteger] *)
Definition isInteger (n : number) : bool := bool_decide (is_Some (num2Z n)).

(** [a < b] *)
Definition js_lt (a b : number) : bool := SFltb a b.

(** The integral part of a double, 0 for NaN and the infinities: what
    [ToInt32] reduces modulo 2^32. *)
Definition truncate (f : number) : Z :=
  match f with
  | S754_finite s m e =>
      let z := if 0 <=? e then Z.pos m * 2 ^ e else Z.pos m / 2 ^ (- e) in
      if s then - z else z
  | _ => 0
  end.

(** [roots.slice(0, end)] *)
Definition slice0 {A} (a : list A) (end_ : number) : list A :=
  let len := Z.of_nat (length a) in
  let final :=
    match end_ with
    | S754_infinity false => len
    | S754_infinity true => 0
    | _ =>
        let relativeEnd := truncate end_ in
        if relativeEnd <? 0 then Z.max (len + relativeEnd) 0
        else Z.min relativeEnd len
    end in
  take (Z.to_nat final) a.

Module JS.

(** [convertToDecimal] as the program calls it: the value is whatever the
    file holds, the base a double ([parseInt] returned it). *)
Definition convertToDecimal (value : jsvalue) (base : number) : outcome number :=
  if js_lt base (Z2num 2) || js_gt base (Z2num 16)
  then Throws (BaseNotSupported base)
  else
    match value with
    | VJson (JStr value) =>
        if (length value =? 0)%nat then Throws ValueNotString
        else
          let decimal := parseInt value (truncate base) in
          if isNaN decimal then Throws (ValueInvalid value base)
          else Returns decimal
    | _ => Throws ValueNotString      (* typeof value !== 'string' *)
    end.

End JS.

(** [items.join(',')], each element converted by [toString]. *)
Fixpoint joinElements {A} (toString : A -> outcome jsstring) (items : list A)
  : outcome jsstring :=
  match items with
  | [] => Returns []
  | item :: rest =>
      s ← toString item;
      match rest with
      | [] => Returns s
      | _ => r ← joinElements toString rest; Returns (s ++ str "," ++ r)
      end
  end.

Section Input.
Context {printer : NumberToString}.

(** The string an argument of [parseInt] is converted to.  An array is
    joined with commas, [null] elements giving nothing; an object is
    printed by [Object.prototype.toString], unless it hides that method
    behind a property of its own, which is not callable. *)
Fixpoint ToString_json (j : json) : outcome jsstring :=
  match j with
  | JNull => Returns (str "null")
  | JBool b => Returns (if b then str "true" else str "false")
  | JNum n => Returns (numberToString n)
  | JStr s => Returns s
  | JArr items =>
      joinElements (fun item => match item with
                                | JNull => Returns []
                                | _ => ToString_json item
                                end) items
  | JObj fields =>
      match field fields (str "toString") with
      | Some _ => Throws NotPrimitive
      | None => Returns (str "[object Object]")
      end
  end.

Definition ToString (v : jsvalue) : outcome jsstring :=
  match v with
  | VUndefined => Returns (str "undefined")
  | VFunction => Returns (str "function keys() { [native code] }")
  | VJson j => ToString_json j
  end.

(** [parseInt(v)]: without a radix, base 10, or 16 after a prefix 0x. *)
Definition parseInt1 (v : jsvalue) : outcome number :=
  string ← ToString v; Returns (parseInt string 0).

(** The callback of [convertRootsToDecimal]. *)
Definition convertRoot (root : json) : outcome number :=
  base ← Get (VJson root) (str "base");
  if negb (ToBoolean base) then Throws RootIncomplete
  else
    value ← Get (VJson root) (str "value");
    if negb (ToBoolean value) then Throws RootIncomplete
    else
      base ← parseInt1 base;
      JS.convertToDecimal value base.

(** [roots.map(...)] *)
Fixpoint convertRootsToDecimal (roots : list json) : outcome (list number) :=
  match roots with
  | [] => Returns []
  | root :: roots =>
      decimal ← convertRoot root;
      decimals ← convertRootsToDecimal roots;
      Returns (decimal :: decimals)
  end.

(** The properties [for (let key in jsonData)] visits, with
    [jsonData[key]]: the fields of an object, the elements of an array and
    the code units of a string under their indices. *)
Definition forIn (jsonData : json) : list (jsstring * json) :=
  match jsonData with
  | JObj fields => fields
  | JArr items =>
      imap (fun i item => (numberToString (Z2num (Z.of_nat i)), item)) items
  | JStr s =>
      imap (fun i c => (numberToString (Z2num (Z.of_nat i)), JStr [c])) s
  | _ => []
  end.

(** The body of the [try] block of [extractInputData]. *)
Definition processRoot (rootData : json) : outcome number :=
  base ← Get (VJson rootData) (str "base");
  base ← parseInt1 base;
  value ← Get (VJson rootData) (str "value");
  JS.convertToDecimal value base.

(** The loop of [extractInputData], from the properties still to visit
    and the roots pushed so far. *)
Fixpoint extractRoots (properties : list (jsstring * json)) (roots : list number)
  : outcome (list number) :=
  match properties with
  | [] => Returns roots
  | (key, rootData) :: properties =>
      if bool_decide (key = str "keys") then extractRoots properties roots
      else
        base ← Get (VJson rootData) (str "base");
        if negb (ToBoolean base) then Throws (InvalidRootData key)
        else
          value ← Get (VJson rootData) (str "value");
          if negb (ToBoolean value) then Throws (InvalidRootData key)
          else
            match processRoot rootData with
            | Returns decimalValue =>
                extractRoots properties (roots ++ [decimalValue])
            | Throws e => Throws (RootError key e)
            end
  end.

(** [Number.isInteger] is false of everything that is not a number, so
    the comparisons that follow it only see numbers. *)
Definition extractInputData (jsonData : json)
  : outcome (number * number * list number) :=
  keys ← Get (VJson jsonData) (str "keys");
  if negb (ToBoolean keys) then Throws MissingKeys
  else
    n ← Get keys (str "n");
    if negb (ToBoolean n) then Throws MissingKeys
    else
      k ← Get keys (str "k");
      if negb (ToBoolean k) then Throws MissingKeys
      else
        match n with
        | VJson (JNum n) =>
            if negb (isInteger n) || js_lt n js_one then Throws InvalidN
            else
              match k with
              | VJson (JNum k) =>
                  if negb (isInteger k) || js_lt k js_one || js_gt k n
                  then Throws (InvalidK n)
                  else
                    roots ← extractRoots (forIn jsonData) [];
                    if (length roots =? 0)%nat then Throws NoValidRoots
                    else if js_lt (Z2num (Z.of_nat (length roots))) k
                    then Throws (InsufficientRoots (length roots) k)
                    else Returns (n, k, roots)
              | _ => Throws (InvalidK n)
              end
        | _ => Throws InvalidN
        end.

(** What [main] computes from the parsed file: the coefficients and the
    verdict of the verification.  Reading the file and printing are not
    modelled; [main] catches whatever is thrown, prints its message and
    exits with status 1. *)
Definition main (jsonData : json) : outcome (list number * bool) :=
  '(n, k, roots) ← extractInputData jsonData;
  coefficients ← solver (buildPolynomial (slice0 roots k));
  let rootsValid := verifyRoots coefficients (slice0 roots k) in
  Returns (coefficients, rootsValid).

(** ** [formatPolynomial] *)

(** [a === b] on numbers: NaN equals nothing, the two zeros are equal. *)
Definition js_eq (a b : number) : bool := SFeqb a b.

(** [terms.join(separator)] *)
Fixpoint join (separator : jsstring) (terms : list jsstring) : jsstring :=
  match terms with
  | [] => []
  | [term] => term
  | term :: terms => term ++ separator ++ join separator terms
  end.

(** [s.replace(/\+ -/g, '- ')]: every "+ -" met from left to right
    becomes "- ". *)
Fixpoint replacePlusMinus (s : jsstring) : jsstring :=
  match s with
  | [] => []
  | c :: rest =>
      match rest with
      | c1 :: c2 :: rest' =>
          if ((c =? 43) && (c1 =? 32) && (c2 =? 45))%N
          then 45%N :: 32%N :: replacePlusMinus rest'
          else c :: replacePlusMinus rest
      | _ => c :: replacePlusMinus rest
      end
  end.

(** One iteration of the loop: the term of degree [i], unless its
    coefficient is zero. *)
Definition formatTerm (coefficients : list number) (terms : list jsstring) (i : nat)
  : list jsstring :=
  let coef := get coefficients i in
  if js_eq coef js_zero then terms
  else
    let term :=
      if (i =? 0)%nat then numberToString coef
      else if (i =? 1)%nat then
        if js_eq coef js_one then str "x"
        else if js_eq coef (js_neg js_one) then str "-x"
        else numberToString coef ++ str "x"
      else
        if js_eq coef js_one
        then str "x^" ++ numberToString (Z2num (Z.of_nat i))
        else if js_eq coef (js_neg js_one)
        then str "-x^" ++ numberToString (Z2num (Z.of_nat i))
        else numberToString coef ++ str "x^" ++ numberToString (Z2num (Z.of_nat i)) in
    terms ++ [term].

Definition formatPolynomial (coefficients : list number) : jsstring :=
  match coefficients with
  | [] => str "0"
  | [c] => numberToString c
  | _ =>
      let terms :=
        foldl (formatTerm coefficients) [] (reverse (seq 0 (length coefficients))) in
      replacePlusMinus (join (str " + ") terms)
  end.

End Input.

(** ** The input format *)

(** The properties of the file other than [keys], in the order of the
    loop of [extractInputData]. *)
Definition rootEntries (fields : list (jsstring * json)) : list (jsstring * json) :=
  filter (fun entry => entry.1 <> str "keys") fields.

(** A root written as the input format prescribes, and the integer it
    denotes: an object whose [base] is a decimal numeral between 2 and 16
    and whose [value] is a numeral in that base. *)
Definition wellFormedRoot (rootData : json) (z : Z) : Prop :=
  exists fields base value,
    rootData = JObj fields /\
    field fields (str "base") = Some (JStr base) /\ digitString 10 base /\
    2 <= stringValue 10 base <= 16 /\
    field fields (str "value") = Some (JStr value) /\
    digitString (stringValue 10 base) value /\
    z = stringValue (stringValue 10 base) value.

(** The exception [extractInputData] throws where the callback of
    [convertRootsToDecimal] throws [e]. *)
Definition rootException (key : jsstring) (e : exception) : exception :=
  match e with
  | NullProperty => NullProperty
  | RootIncomplete => InvalidRootData key
  | e => RootError key e
  end.

(** * Properties *)

(** ** Rounding that does not round *)

Lemma digits2_pos_log2 p : Zpos (digits2_pos p) = Z.log2 (Zpos p) + 1.
Proof.
  assert (Hs : digits2_pos p = Pos.size p) by (induction p; simpl; congruence).
  rewrite Hs. destruct p; simpl; lia.
Qed.

Lemma digits2_pos_bounds p :
  2 ^ (Zpos (digits2_pos p) - 1) <= Zpos p < 2 ^ Zpos (digits2_pos p).
Proof.
  rewrite digits2_pos_log2.
  replace (Z.log2 (Z.pos p) + 1 - 1) with (Z.log2 (Z.pos p)) by lia.
  pose proof (Z.log2_spec (Zpos p)) as Hlog.
  replace (Z.succ (Z.log2 (Z.pos p))) with (Z.log2 (Z.pos p) + 1) in Hlog by lia. lia.
Qed.

Lemma digits2_pos_unique p d :
  2 ^ (d - 1) <= Zpos p < 2 ^ d -> Zpos (digits2_pos p) = d.
Proof.
  intros Hd. rewrite digits2_pos_log2.
  assert (0 < d).
  { destruct (Z_lt_le_dec 0 d); [done|]. rewrite (Z.pow_neg_r 2 (d-1)) in Hd by lia.
    destruct (Z.eq_dec d 0) as [->|]; [simpl in Hd; lia|].
    rewrite Z.pow_neg_r in Hd by lia. lia. }
  enough (Z.log2 (Z.pos p) = d - 1) by lia.
  apply Z.log2_unique; [lia|]. replace (Z.succ (d - 1)) with d by lia. done.
Qed.

Lemma digits2_pos_shift p n :
  0 <= n -> forall q, Zpos q = Zpos p * 2 ^ n -> Zpos (digits2_pos q) = Zpos (digits2_pos p) + n.
Proof.
  intros Hn q Hq. apply digits2_pos_unique. rewrite Hq.
  pose proof (digits2_pos_bounds p) as [Hl Hu].
  replace (Z.pos (digits2_pos p) + n - 1) with ((Z.pos (digits2_pos p) - 1) + n) by lia.
  assert (0 < Z.pos (digits2_pos p)) by lia.
  rewrite !Z.pow_add_r by lia.
  assert (0 < 2 ^ n) by (apply Z.pow_pos_nonneg; lia). nia.
Qed.

Lemma iter_pos_nat {A} (f : A -> A) p x :
  SpecFloat.iter_pos f p x = Nat.iter (Pos.to_nat p) f x.
Proof.
  revert x. induction p as [p IH|p IH|]; intros x.
  - change (SpecFloat.iter_pos f p~1 x)
      with (SpecFloat.iter_pos f p (SpecFloat.iter_pos f p (f x))).
    rewrite !IH, Pos2Nat.inj_xI, <- Nat.iter_add, <- Nat.iter_succ_r. f_equal. lia.
  - change (SpecFloat.iter_pos f p~0 x)
      with (SpecFloat.iter_pos f p (SpecFloat.iter_pos f p x)).
    rewrite !IH, Pos2Nat.inj_xO, <- Nat.iter_add. f_equal. lia.
  - done.
Qed.

Lemma shr_1_iter_exact (n : nat) m :
  Nat.iter n shr_1 (Build_shr_record (Zpos m * 2 ^ Z.of_nat n) false false)
  = Build_shr_record (Zpos m) false false.
Proof.
  revert m. induction n as [|n IH]; intros m.
  - simpl. f_equal. lia.
  - rewrite Nat.iter_succ_r, <- (IH m). f_equal.
    assert (0 < Zpos m * 2 ^ Z.of_nat n)
      by (apply Z.mul_pos_pos; [lia|apply Z.pow_pos_nonneg; lia]).
    destruct (Zpos m * 2 ^ Z.of_nat n) as [|q|q] eqn:E; try lia.
    replace (Zpos m * 2 ^ Z.of_nat (S n)) with (Zpos q~0)
      by (rewrite Nat2Z.inj_succ, Z.pow_succ_r; lia).
    done.
Qed.

Lemma shr_exact m e n :
  0 <= n ->
  shr (Build_shr_record (Zpos m * 2 ^ n) false false) e n
  = (Build_shr_record (Zpos m) false false, e + n).
Proof.
  intros Hn. destruct n as [|p|p]; try lia.
  - rewrite Z.pow_0_r, Z.mul_1_r, Z.add_0_r. done.
  - unfold shr. rewrite iter_pos_nat. f_equal.
    rewrite <- (positive_nat_Z p) at 1. apply shr_1_iter_exact.
Qed.

Lemma fexp_canonical m e :
  bounded prec emax m e = true -> fexp prec emax (Zpos (digits2_pos m) + e) = e.
Proof.
  unfold bounded, canonical_mantissa. intros [H1 _]%andb_true_iff. lia.
Qed.

(** Rounding a mantissa that is a canonical one shifted left gives back the
    canonical one: nothing is lost. *)
Lemma binary_round_aux_exact s m e n q :
  bounded prec emax m e = true -> 0 <= n -> Zpos q = Zpos m * 2 ^ n ->
  binary_round_aux prec emax s (Zpos q) (e - n) loc_Exact = S754_finite s m e.
Proof.
  intros Hb Hn Hq.
  pose proof (fexp_canonical _ _ Hb) as Hc.
  unfold binary_round_aux.
  unfold shr_fexp at 1. simpl Zdigits2.
  rewrite (digits2_pos_shift m n Hn q Hq).
  replace (Z.pos (digits2_pos m) + n + (e - n)) with (Z.pos (digits2_pos m) + e) by lia.
  rewrite Hc. replace (e - (e - n)) with n by lia.
  simpl shr_record_of_loc. rewrite Hq, shr_exact by done.
  replace (e - n + n) with e by lia.
  simpl. unfold shr_fexp. simpl Zdigits2. rewrite Hc, Z.sub_diag. simpl.
  unfold bounded in Hb. apply andb_true_iff in Hb as [_ Hb]. rewrite Hb. done.
Qed.

Lemma pos_iter_xO m d : Zpos (Pos.iter xO m d) = Zpos m * 2 ^ Zpos d.
Proof.
  rewrite Pos2Nat.inj_iter, <- (positive_nat_Z d).
  induction (Pos.to_nat d) as [|n IH]; [simpl; lia|].
  rewrite Nat2Z.inj_succ, Z.pow_succ_r by lia.
  cbn [nat_rect]. rewrite Pos2Z.inj_xO, IH. lia.
Qed.

Lemma pow2_pos n : 0 <= n -> 0 < 2 ^ n.
Proof. intros. apply Z.pow_pos_nonneg; lia. Qed.

(** Rescaling a dyadic equality. *)
Lemma dyadic_le m e mc ec L :
  L <= e -> e <= ec -> m * 2 ^ (e - L) = mc * 2 ^ (ec - L) -> m = mc * 2 ^ (ec - e).
Proof.
  intros HL He Heq.
  replace (ec - L) with ((ec - e) + (e - L)) in Heq by lia.
  rewrite Z.pow_add_r in Heq by lia.
  pose proof (pow2_pos (e - L)). nia.
Qed.

Lemma binary_round_exact s p e mc ec L :
  bounded prec emax mc ec = true -> L <= e -> L <= ec ->
  Zpos p * 2 ^ (e - L) = Zpos mc * 2 ^ (ec - L) ->
  binary_round prec emax s p e = S754_finite s mc ec.
Proof.
  intros Hb HLe HLec Heq.
  pose proof (fexp_canonical _ _ Hb) as Hc.
  unfold binary_round.
  destruct (Z_le_gt_dec e ec) as [Hle|Hgt].
  - pose proof (dyadic_le _ _ _ _ _ HLe Hle Heq) as Hp.
    rewrite (digits2_pos_shift mc (ec - e) ltac:(lia) p Hp).
    replace (Z.pos (digits2_pos mc) + (ec - e) + e) with (Z.pos (digits2_pos mc) + ec) by lia.
    rewrite Hc. unfold shl_align.
    destruct (ec - e) as [|d|d] eqn:Ed; try lia.
    + replace e with (ec - 0) by lia.
      apply binary_round_aux_exact; [done|lia|done].
    + replace e with (ec - Zpos d) by lia.
      apply binary_round_aux_exact; [done|lia|done].
  - symmetry in Heq.
    assert (Hle : ec <= e) by lia.
    pose proof (dyadic_le _ _ _ _ _ HLec Hle Heq) as Hp.
    rewrite <- (Z.add_0_r (Z.pos (digits2_pos p) + e)).
    replace (Z.pos (digits2_pos p) + e + 0) with (Z.pos (digits2_pos p) + (e - ec) + ec) by lia.
    rewrite <- (digits2_pos_shift p (e - ec) ltac:(lia) mc Hp).
    rewrite Hc. unfold shl_align.
    destruct (ec - e) as [|d|d] eqn:Ed; try lia.
    assert (Pos.iter xO p d = mc) as ->.
    { apply Pos2Z.inj. rewrite pos_iter_xO, Hp. f_equal. f_equal. lia. }
    replace ec with (ec - 0) at 1 by lia. apply binary_round_aux_exact; [done|lia|].
    rewrite Z.pow_0_r. lia.
Qed.

Lemma exact_rep z : exact z = true <-> rep (Z2num z) z.
Proof.
  unfold exact, rep. rewrite andb_true_iff, bool_decide_eq_true. done.
Qed.

Lemma bounded_digits m e :
  bounded prec emax m e = true ->
  (Zpos (digits2_pos m) = 53 /\ -1074 <= e <= 971) \/ (Zpos (digits2_pos m) < 53 /\ e = -1074).
Proof.
  unfold bounded, canonical_mantissa, fexp, SpecFloat.emin, prec, emax.
  intros [H1 H2]%andb_true_iff. lia.
Qed.

Lemma rep_finite_inv s m e z :
  rep (S754_finite s m e) z ->
  bounded prec emax m e = true /\ 2 ^ 52 <= Zpos m < 2 ^ 53 /\ -52 <= e /\
  z <> 0 /\ s = (z <? 0) /\ Zpos m * 2 ^ (e + 52) = Z.abs z * 2 ^ 52.
Proof.
  intros [Hv Hz]. simpl in Hv. split; [done|].
  pose proof (digits2_pos_bounds m) as Hd.
  assert (Hm53 : Zpos (digits2_pos m) = 53 /\ (exists v, 0 < v /\ z = (if s then - v else v)
             /\ Zpos m * 2 ^ (e + 52) = v * 2 ^ 52 /\ -52 <= e)).
  { unfold num2Z in Hz. destruct (0 <=? e) eqn:He.
    - apply Z.leb_le in He. destruct (bounded_digits _ _ Hv) as [[Hd53 _]|[_ ?]]; [|lia].
      split; [done|]. exists (Zpos m * 2 ^ e). pose proof (pow2_pos e He).
      split; [lia|]. split; [destruct s; simpl in Hz; congruence|].
      rewrite Z.pow_add_r by lia. split; lia.
    - apply Z.leb_gt in He. destruct (Z.pos m mod 2 ^ (- e) =? 0) eqn:Hmod; [|destruct s; done].
      apply Z.eqb_eq in Hmod. pose proof (pow2_pos (-e) ltac:(lia)) as Hpe.
      pose proof (Z.div_mod (Zpos m) (2 ^ (- e)) ltac:(lia)) as Hdm. rewrite Hmod in Hdm.
      set (v := Z.pos m / 2 ^ (- e)) in *.
      assert (0 < v) by nia.
      assert (Hd53 : Zpos (digits2_pos m) = 53).
      { destruct (bounded_digits _ _ Hv) as [[Hd53 _]|[Hlt ->]]; [done|]. exfalso.
        assert (Z.pos m < 2 ^ 53).
        { destruct Hd as [_ Hd]. eapply Z.lt_le_trans; [apply Hd|].
          apply Z.pow_le_mono_r; lia. }
        assert (2 ^ 53 < 2 ^ (- -1074)) by (apply Z.pow_lt_mono_r; lia). nia. }
      split; [done|]. exists v. split; [done|]. split; [destruct s; simpl in Hz; congruence|].
      assert (-52 <= e).
      { destruct (Z_le_gt_dec (-52) e); [done|]. exfalso.
        rewrite Hd53 in Hd. assert (2 ^ 53 <= 2 ^ (- e)) by (apply Z.pow_le_mono_r; lia). nia. }
      split; [|done].
      replace 52 with ((e + 52) + - e) at 2 by lia. rewrite (Z.pow_add_r 2 (e+52)) by lia.
      nia. }
  destruct Hm53 as (Hd53 & v & Hv0 & -> & Hval & He).
  rewrite Hd53 in Hd. split; [simpl in *; lia|]. split; [done|].
  destruct s; (split; [lia|]); (split; [lia|]); rewrite Hval; f_equal; lia.
Qed.

Lemma rep_zero_inv s z : rep (S754_zero s) z -> z = 0.
Proof. intros [_ Hz]. simpl in Hz. congruence. Qed.

Lemma rep_inv f z :
  rep f z ->
  (z = 0 /\ exists s, f = S754_zero s) \/
  (exists s m e, f = S754_finite s m e /\
     bounded prec emax m e = true /\ 2 ^ 52 <= Zpos m < 2 ^ 53 /\ -52 <= e /\
     z <> 0 /\ s = (z <? 0) /\ Zpos m * 2 ^ (e + 52) = Z.abs z * 2 ^ 52).
Proof.
  intros Hr. destruct f as [s|s| |s m e].
  - left. split; [by eapply rep_zero_inv|eauto].
  - destruct Hr as [_ ?]; done.
  - destruct Hr as [_ ?]; done.
  - right. exists s, m, e. split; [done|]. by apply rep_finite_inv.
Qed.

Lemma rep_zero s : rep (S754_zero s) 0.
Proof. done. Qed.

Lemma binary_normalize_exact M e z :
  -52 <= e -> M * 2 ^ (e + 52) = z * 2 ^ 52 -> exact z = true ->
  binary_normalize prec emax M e false = Z2num z.
Proof.
  intros He HM Hex. apply exact_rep in Hex.
  pose proof (pow2_pos (e + 52) ltac:(lia)) as Hp.
  destruct (rep_inv _ _ Hex) as [[-> _]|(s & m & ec & Hf & Hb & Hm & Hec & Hz & Hs & Hval)].
  - assert (M = 0) as -> by nia. done.
  - rewrite Hf. destruct M as [|p|p]; simpl.
    + lia.
    + assert (0 < z) by nia. assert (s = false) as -> by (rewrite Hs; apply Z.ltb_ge; lia).
      apply (binary_round_exact _ _ _ _ _ (-52)); [done|lia|lia|].
      replace (e - -52) with (e + 52) by lia. replace (ec - -52) with (ec + 52) by lia. lia.
    + assert (z < 0) by nia. assert (s = true) as -> by (rewrite Hs; apply Z.ltb_lt; lia).
      apply (binary_round_exact _ _ _ _ _ (-52)); [done|lia|lia|].
      replace (e - -52) with (e + 52) by lia. replace (ec - -52) with (ec + 52) by lia. lia.
Qed.

Lemma rep_Z2num f z : rep f z -> z <> 0 -> f = Z2num z.
Proof.
  intros Hr Hz.
  destruct (rep_inv _ _ Hr) as [[-> _]|(s & m & e & -> & Hb & Hm & He & _ & Hs & Hval)]; [done|].
  unfold Z2num. destruct z as [|p|p]; [done| |]; simpl in *; rewrite Hs; symmetry;
    apply (binary_round_exact _ _ _ _ _ (-52)); try done; try lia;
    replace (0 - -52) with 52 by lia; replace (e - -52) with (e + 52) by lia; lia.
Qed.

Lemma rep_exact f z : rep f z -> exact z = true.
Proof.
  intros Hr. apply exact_rep. destruct (Z.eq_dec z 0) as [->|Hz]; [done|].
  by rewrite <- (rep_Z2num f z).
Qed.

Lemma rep_neg f z : rep f z -> rep (js_neg f) (- z).
Proof.
  intros [Hv Hz]. split; [by destruct f|].
  destruct f as [s|s| |s m e]; simpl in *; try done.
  - injection Hz as <-. done.
  - destruct (if 0 <=? e then Some (Z.pos m * 2 ^ e)
              else if Z.pos m `mod` 2 ^ (- e) =? 0 then Some (Z.pos m `div` 2 ^ (- e)) else None);
      [|destruct s; done].
    destruct s; simpl in *; injection Hz as <-; f_equal; unfold id; lia.
Qed.

Lemma shl_align_fst m e ez :
  ez <= e -> Zpos (fst (shl_align m e ez)) = Zpos m * 2 ^ (e - ez).
Proof.
  intros H. unfold shl_align. destruct (ez - e) as [|d|d] eqn:Ed; try lia.
  - replace (e - ez) with 0 by lia. simpl. lia.
  - simpl. rewrite pos_iter_xO. do 2 f_equal. lia.
Qed.

Lemma cond_Zopp_sign z v : Z.abs z = v -> cond_Zopp (z <? 0) v = z.
Proof. intros <-. unfold cond_Zopp. destruct (z <? 0) eqn:E; lia. Qed.

(** Addition is exact whenever the integer sum is representable. *)
Lemma js_add_rep fa fb a b :
  rep fa a -> rep fb b -> exact (a + b) = true ->
  rep (js_add fa fb) (a + b) /\
  (fa = Z2num a \/ fb = Z2num b -> js_add fa fb = Z2num (a + b)).
Proof.
  intros Ha Hb Hex.
  destruct (rep_inv _ _ Ha)
    as [[-> [sa ->]]|(sa & ma & ea & -> & Hba & Hma & Hea & Hza & Hsa & Hva)];
  destruct (rep_inv _ _ Hb)
    as [[-> [sb ->]]|(sb & mb & eb & -> & Hbb & Hmb & Heb & Hzb & Hsb & Hvb)].
  - split; [destruct sa, sb; apply rep_zero|]. intros [H|H]; destruct sa, sb; done.
  - simpl. split; [done|]. intros _. by apply rep_Z2num.
  - rewrite Z.add_0_r. simpl. split; [done|]. intros _. by apply rep_Z2num.
  - assert (Heq : js_add (S754_finite sa ma ea) (S754_finite sb mb eb) = Z2num (a + b)).
    { unfold js_add, SFadd. apply binary_normalize_exact; [lia| |done].
      rewrite !shl_align_fst by lia.
      set (ez := Z.min ea eb).
      assert (Hsplit : forall m e z (s : bool), ez <= e -> s = (z <? 0) ->
                 Zpos m * 2 ^ (e + 52) = Z.abs z * 2 ^ 52 ->
                 cond_Zopp s (Zpos m * 2 ^ (e - ez)) * 2 ^ (ez + 52) = z * 2 ^ 52).
      { intros m e z s Hle -> Hv.
        replace (e + 52) with ((e - ez) + (ez + 52)) in Hv by lia.
        rewrite Z.pow_add_r in Hv by lia.
        unfold cond_Zopp. destruct (z <? 0) eqn:E; lia. }
      rewrite Z.mul_add_distr_r, (Hsplit ma ea a), (Hsplit mb eb b) by (done || lia). lia. }
    split; [|done]. rewrite Heq. by apply exact_rep.
Qed.

(** Multiplication is exact whenever the integer product is representable. *)
Lemma js_mul_rep fa fb a b :
  rep fa a -> rep fb b -> exact (a * b) = true -> rep (js_mul fa fb) (a * b).
Proof.
  intros Ha Hb Hex.
  destruct (rep_inv _ _ Ha)
    as [[-> [sa ->]]|(sa & ma & ea & -> & Hba & Hma & Hea & Hza & Hsa & Hva)];
  destruct (rep_inv _ _ Hb)
    as [[-> [sb ->]]|(sb & mb & eb & -> & Hbb & Hmb & Heb & Hzb & Hsb & Hvb)].
  - apply rep_zero.
  - apply rep_zero.
  - rewrite Z.mul_0_r. apply rep_zero.
  - apply exact_rep in Hex.
    destruct (rep_inv _ _ Hex) as [[Hab _]|(s & m & e & Hf & Hbm & Hm & He & Hz & Hs & Hv)]; [lia|].
    enough (js_mul (S754_finite sa ma ea) (S754_finite sb mb eb) = Z2num (a * b)) as -> by done.
    rewrite Hf. unfold js_mul, SFmul.
    assert (s = xorb sa sb) as ->.
    { rewrite Hs, Hsa, Hsb.
      destruct (a <? 0) eqn:E1, (b <? 0) eqn:E2, (a * b <? 0) eqn:E3; try done; nia. }
    assert (Hprod : Zpos (ma * mb) * 2 ^ (ea + eb - -104) = Zpos m * 2 ^ (e - -104)).
    { replace (ea + eb - -104) with ((ea + 52) + (eb + 52)) by lia.
      replace (e - -104) with ((e + 52) + 52) by lia.
      rewrite (Z.pow_add_r 2 (ea + 52) (eb + 52)), (Z.pow_add_r 2 (e + 52) 52) by lia.
      rewrite Pos2Z.inj_mul.
      transitivity ((Zpos ma * 2 ^ (ea + 52)) * (Zpos mb * 2 ^ (eb + 52))); [lia|].
      rewrite Hva, Hvb.
      transitivity ((Zpos m * 2 ^ (e + 52)) * 2 ^ 52); [|lia].
      rewrite Hv, Z.abs_mul. lia. }
    assert (Hle : ea + eb <= e).
    { destruct (Z_le_gt_dec (ea + eb) e); [done|]. exfalso.
      symmetry in Hprod.
      assert (HL : -104 <= e) by lia. assert (Hlt : e <= ea + eb) by lia.
      pose proof (dyadic_le _ _ _ _ (-104) HL Hlt Hprod) as Hm'.
      assert (2 <= 2 ^ (ea + eb - e)) by (change 2 with (2 ^ 1) at 1; apply Z.pow_le_mono_r; lia).
      rewrite Pos2Z.inj_mul in Hm'. nia. }
    replace (ea + eb) with (e - (e - (ea + eb))) by lia.
    apply binary_round_aux_exact; [done|lia|].
    apply (dyadic_le _ _ _ _ (-104)); [lia|done|done].
Qed.

(** On integers, the tolerance test is a test for zero. *)
Lemma js_gt_tolerance_rep f z :
  rep f z -> js_gt (js_abs f) tolerance = negb (z =? 0).
Proof.
  intros Hr.
  destruct (rep_inv _ _ Hr) as [[-> [s ->]]|(s & m & e & -> & _ & _ & He & Hz & _)];
    [reflexivity|].
  replace (z =? 0) with false by (symmetry; apply Z.eqb_neq; lia).
  cbv [js_gt js_abs SFltb tolerance SFabs SFcompare].
  replace (-86 ?= e) with Lt by (symmetry; apply Z.compare_lt_iff; lia). done.
Qed.

(** Integers up to 2^53 in magnitude are doubles: within that range the
    checked arithmetic never gives up. *)
Lemma safe_exact z : Z.abs z <= 2 ^ 53 -> exact z = true.
Proof.
  intros Hz. apply exact_rep.
  destruct (Z.eq_dec z 0) as [->|Hz0]; [done|].
  destruct (Z.eq_dec (Z.abs z) (2 ^ 53)) as [Heq|Hne].
  { assert (z = 2 ^ 53 \/ z = - 2 ^ 53) as [->| ->] by lia; by vm_compute. }
  assert (Hp : exists p, Z.abs z = Zpos p) by (destruct z; simpl; eauto; done).
  destruct Hp as [p Hp].
  pose proof (digits2_pos_bounds p) as Hd.
  set (d := Zpos (digits2_pos p)) in *.
  assert (Hd53 : d <= 53).
  { destruct (Z_le_gt_dec d 53); [done|]. exfalso.
    assert (2 ^ 53 <= 2 ^ (d - 1)) by (apply Z.pow_le_mono_r; lia). lia. }
  pose proof (pow2_pos (53 - d) ltac:(lia)).
  assert (Hm : exists m, Zpos m = Zpos p * 2 ^ (53 - d)).
  { destruct (Zpos p * 2 ^ (53 - d)) as [|m|m] eqn:E; try lia. eauto. }
  destruct Hm as [m Hm].
  assert (Hb : bounded prec emax m (d - 53) = true).
  { unfold bounded, canonical_mantissa, fexp, SpecFloat.emin, prec, emax.
    rewrite (digits2_pos_shift p (53 - d) ltac:(lia) m Hm). fold d.
    apply andb_true_iff. split; lia. }
  assert (Hf : Z2num z = S754_finite (z <? 0) m (d - 53)).
  { unfold Z2num.
    assert (Heq : Zpos p * 2 ^ (0 - (d - 53)) = Zpos m * 2 ^ (d - 53 - (d - 53))).
    { replace (0 - (d - 53)) with (53 - d) by lia. rewrite Z.sub_diag, Z.pow_0_r. lia. }
    destruct z as [|q|q]; [done| |]; simpl in Hp; injection Hp as ->; simpl;
      apply (binary_round_exact _ _ _ _ _ (d - 53)); done || lia. }
  rewrite Hf. split; [done|].
  unfold num2Z.
  assert (Hval : (if 0 <=? d - 53 then Some (Z.pos m * 2 ^ (d - 53))
                  else if Z.pos m `mod` 2 ^ (- (d - 53)) =? 0
                       then Some (Z.pos m `div` 2 ^ (- (d - 53))) else None) = Some (Z.abs z)).
  { destruct (0 <=? d - 53) eqn:E.
    - apply Z.leb_le in E. replace (d - 53) with 0 by lia.
      replace (53 - d) with 0 in Hm by lia. f_equal. lia.
    - replace (- (d - 53)) with (53 - d) by lia. rewrite Hm.
      rewrite Z.mod_mul, Z.div_mul by lia. simpl. by rewrite Hp. }
  rewrite Hval. destruct (z <? 0) eqn:E; simpl; f_equal; unfold id; lia.
Qed.

Lemma check_safe z : Z.abs z <= 2 ^ 53 -> check z = Some z.
Proof. intros Hz. unfold check. by rewrite safe_exact. Qed.

(** [tolerance] is a double, the nearest one to 10^-10: it is within half a
    unit in the last place, 2^-87, of it. *)
Lemma tolerance_nearest :
  valid_binary prec emax tolerance = true /\
  tolerance = S754_finite false 7737125245533627 (-86) /\
  2 * Z.abs (7737125245533627 * 10 ^ 10 - 2 ^ 86) <= 10 ^ 10.
Proof. split; [done|]. split; [done|]. by vm_compute. Qed.

Lemma shr_1_nonneg mrs : 0 <= shr_m mrs -> 0 <= shr_m (shr_1 mrs).
Proof. destruct mrs as [[|[p|p|]|[p|p|]] r s]; simpl; lia. Qed.

Lemma shr_nonneg mrs e n : 0 <= shr_m mrs -> 0 <= shr_m (fst (shr mrs e n)).
Proof.
  intros H. destruct n as [|p|p]; simpl; try done.
  rewrite iter_pos_nat. induction (Pos.to_nat p) as [|k IH]; [done|].
  rewrite Nat.iter_succ. by apply shr_1_nonneg.
Qed.

Lemma shr_fexp_nonneg m e l : 0 <= m -> 0 <= shr_m (fst (shr_fexp prec emax m e l)).
Proof.
  intros H. unfold shr_fexp. apply shr_nonneg.
  destruct l as [|[]]; simpl; done.
Qed.

Lemma binary_round_aux_not_nan s m e l :
  0 <= m -> isNaN (binary_round_aux prec emax s m e l) = false.
Proof.
  intros Hm. unfold binary_round_aux.
  pose proof (shr_fexp_nonneg m e l Hm) as H1.
  destruct (shr_fexp prec emax m e l) as [mrs' e'] eqn:E1. simpl in H1.
  assert (H2 : 0 <= round_nearest_even (shr_m mrs') (loc_of_shr_record mrs')).
  { unfold round_nearest_even. destruct (loc_of_shr_record mrs') as [|[]]; try lia.
    destruct (Z.even (shr_m mrs')); lia. }
  pose proof (shr_fexp_nonneg _ e' loc_Exact H2) as H3.
  destruct (shr_fexp prec emax _ e' loc_Exact) as [mrs'' e''] eqn:E2. simpl in H3.
  destruct (shr_m mrs'') as [|p|p]; [done| |lia].
  by destruct (e'' <=? emax - prec).
Qed.

(** Converting an integer never yields NaN. *)
Lemma Z2num_not_nan z : isNaN (Z2num z) = false.
Proof.
  unfold Z2num, binary_normalize, binary_round.
  destruct z as [|p|p]; [done| |].
  - destruct (shl_align p 0 _) as [mz ez]. by apply binary_round_aux_not_nan.
  - destruct (shl_align p 0 _) as [mz ez]. by apply binary_round_aux_not_nan.
Qed.

(** ** The loops of [multiplyPolynomials] *)

Lemma foldl_seq_S {A} (f : A -> nat -> A) a k :
  foldl f a (seq 0 (S k)) = f (foldl f a (seq 0 k)) k.
Proof. by rewrite seq_S, foldl_app. Qed.

Lemma foldl_seq_shift {A} (f : A -> nat -> A) a k :
  foldl f a (seq 0 (S k)) = foldl (fun a i => f a (S i)) (f a 0%nat) (seq 0 k).
Proof. simpl. by rewrite <- fmap_S_seq, foldl_fmap. Qed.

Lemma foldl_ext_in {A B} (f g : A -> B -> A) a l :
  (forall a x, x ∈ l -> f a x = g a x) -> foldl f a l = foldl g a l.
Proof.
  revert a. induction l as [|x l IH]; intros a Hfg; [done|]. simpl.
  rewrite Hfg by left. apply IH. intros; apply Hfg. by right.
Qed.

Lemma foldl_id_in {A B} (f : A -> B -> A) a l :
  (forall a x, x ∈ l -> f a x = a) -> foldl f a l = a.
Proof.
  revert a. induction l as [|x l IH]; intros a Hf; [done|]. simpl.
  rewrite Hf by left. apply IH. intros; apply Hf. by right.
Qed.

Section LoopFacts.
Context {num : Type} `{Arith num}.
Implicit Types (a result : list num) (x c : num) (i j k t : nat).

Lemma get_lookup a i x : a !! i = Some x -> get a i = x.
Proof. unfold get. by intros ->. Qed.

Lemma lookup_get a i : (i < length a)%nat -> a !! i = Some (get a i).
Proof. intros [x Hx]%lookup_lt_is_Some. by rewrite (get_lookup _ _ _ Hx). Qed.

Lemma get_cons_0 c a : get (c :: a) 0 = c.
Proof. done. Qed.

Lemma get_cons_S c a i : get (c :: a) (S i) = get a i.
Proof. done. Qed.

Lemma get_replicate n x i : (i < n)%nat -> get (replicate n x) i = x.
Proof. intros Hi. apply get_lookup. by apply lookup_replicate_2. Qed.

Lemma assign_in_range a i x : (i < length a)%nat -> assign a i x = <[i := x]> a.
Proof. intros Hi. unfold assign. by apply Nat.ltb_lt in Hi as ->. Qed.

Lemma length_assign a i x : (i < length a)%nat -> length (assign a i x) = length a.
Proof. intros Hi. by rewrite assign_in_range, length_insert. Qed.

Lemma get_assign a i x t :
  (i < length a)%nat -> get (assign a i x) t = if decide (t = i) then x else get a t.
Proof.
  intros Hi. rewrite assign_in_range by done. unfold get.
  destruct (decide (t = i)) as [->|Hne].
  - by rewrite list_lookup_insert_eq.
  - by rewrite list_lookup_insert_ne.
Qed.

Lemma inner_spec (poly1 poly2 : list num) i result k :
  (i + k <= length result)%nat ->
  length (inner poly1 poly2 i result k) = length result /\
  forall t, get (inner poly1 poly2 i result k) t =
    if (i <=? t)%nat && (t - i <? k)%nat
    then num_add (get result t) (num_mul (get poly1 i) (get poly2 (t - i)))
    else get result t.
Proof.
  induction k as [|k IH]; intros Hk.
  - split; [done|]. intros t. unfold Nat.ltb. simpl. by rewrite andb_false_r.
  - destruct IH as [IHlen IHget]; [lia|].
    unfold inner in *. rewrite foldl_seq_S.
    set (r := foldl _ result (seq 0 k)) in *.
    split; [rewrite length_assign; lia|].
    intros t. rewrite get_assign by lia.
    destruct (decide (t = i + k)%nat) as [->|Hne].
    + rewrite IHget.
      replace (i <=? i + k)%nat with true by (symmetry; apply Nat.leb_le; lia).
      replace (i + k - i)%nat with k by lia.
      rewrite Nat.ltb_irrefl, andb_false_r.
      by replace (k <? S k)%nat with true by (symmetry; apply Nat.ltb_lt; lia).
    + rewrite IHget.
      destruct (i <=? t)%nat eqn:E1; [|done]. apply Nat.leb_le in E1.
      destruct (t - i <? k)%nat eqn:E2.
      * apply Nat.ltb_lt in E2.
        by replace (t - i <? S k)%nat with true by (symmetry; apply Nat.ltb_lt; lia).
      * apply Nat.ltb_ge in E2.
        by replace (t - i <? S k)%nat with false by (symmetry; apply Nat.ltb_ge; lia).
Qed.

Lemma outer_spec (poly1 poly2 : list num) result k :
  (k <= length poly1)%nat ->
  length result = (length poly1 + length poly2 - 1)%nat ->
  length (outer poly1 poly2 result k) = length result /\
  forall t, get (outer poly1 poly2 result k) t =
    foldl (term poly1 poly2 t) (get result t) (seq 0 k).
Proof.
  intros Hk Hlen. induction k as [|k IH]; [done|].
  destruct IH as [IHlen IHget]; [lia|].
  unfold outer in *. rewrite foldl_seq_S.
  set (r := foldl _ result (seq 0 k)) in *.
  destruct (inner_spec poly1 poly2 k r (length poly2)) as [Hl Hg]; [lia|].
  split; [lia|].
  intros t. rewrite foldl_seq_S, Hg, IHget. done.
Qed.

Lemma multiplyPolynomials_outer (poly1 poly2 : list num) :
  multiplyPolynomials poly1 poly2 =
    if (length poly1 + length poly2 =? 0)%nat then Err InvalidArrayLength
    else Ok (outer poly1 poly2
               (replicate (length poly1 + length poly2 - 1) num_zero) (length poly1)).
Proof. done. Qed.

(** What [multiplyPolynomials] returns. *)
Lemma multiplyPolynomials_spec (poly1 poly2 : list num) :
  (length poly1 + length poly2)%nat <> 0%nat ->
  exists result,
    multiplyPolynomials poly1 poly2 = Ok result /\
    length result = (length poly1 + length poly2 - 1)%nat /\
    forall t, (t < length poly1 + length poly2 - 1)%nat ->
      result !! t = Some (convolution poly1 poly2 t).
Proof.
  intros Hne. rewrite multiplyPolynomials_outer.
  apply Nat.eqb_neq in Hne as ->.
  set (r0 := replicate _ num_zero).
  destruct (outer_spec poly1 poly2 r0 (length poly1)) as [Hl Hg];
    [done|by unfold r0; rewrite length_replicate|].
  unfold r0 in Hl at 2. rewrite length_replicate in Hl.
  eexists. split; [done|]. split; [done|].
  intros t Ht. rewrite lookup_get by lia. f_equal.
  rewrite Hg. unfold r0. by rewrite get_replicate.
Qed.

Lemma multiplyPolynomials_empty :
  multiplyPolynomials (num:=num) [] [] = Err InvalidArrayLength.
Proof. done. Qed.
End LoopFacts.

Section Linear.
Context {num : Type} `{Arith num}.
Implicit Types (a b c carry x : num) (p q : list num) (t : nat).

Lemma term_cons_0 c p q acc t :
  term (c :: p) q t acc 0 =
    if (t <? length q)%nat then num_add acc (num_mul c (get q t)) else acc.
Proof. unfold term. by rewrite Nat.sub_0_r. Qed.

Lemma convolution_cons_0 c p q acc :
  foldl (term (c :: p) q 0) acc (seq 0 (length (c :: p))) = term (c :: p) q 0 acc 0.
Proof.
  simpl length. rewrite foldl_seq_shift. apply foldl_id_in. by intros a x _.
Qed.

Lemma convolution_cons_S c p q acc t :
  foldl (term (c :: p) q (S t)) acc (seq 0 (length (c :: p))) =
  foldl (term p q t) (term (c :: p) q (S t) acc 0) (seq 0 (length p)).
Proof.
  simpl length. rewrite foldl_seq_shift. apply foldl_ext_in. by intros a x _.
Qed.

Lemma length_linear a b carry p : length (linear a b carry p) = S (length p).
Proof. revert carry. induction p as [|c p IH]; intros carry; simpl; by rewrite ?IH. Qed.

Lemma get_linear a b p : forall carry t,
  (t <= length p)%nat ->
  get (linear a b carry p) t =
    foldl (term p [a; b] t) (if t is 0%nat then carry else num_zero) (seq 0 (length p)).
Proof.
  induction p as [|c p IH]; intros carry t Ht.
  - simpl in *. by replace t with 0%nat by lia.
  - destruct t as [|t].
    + by rewrite convolution_cons_0.
    + rewrite convolution_cons_S. simpl linear. rewrite get_cons_S, IH by (simpl in Ht; lia).
      rewrite term_cons_0. by destruct t as [|[|t]].
Qed.

(** Multiplying by a two-term factor. *)
Lemma multiplyPolynomials_linear p a b :
  multiplyPolynomials p [a; b] = Ok (linear a b num_zero p).
Proof.
  destruct (multiplyPolynomials_spec p [a; b]) as (r & -> & Hlen & Hr); [simpl; lia|].
  f_equal. simpl in Hlen, Hr.
  apply (list_eq_same_length _ _ (S (length p))); [by rewrite length_linear|lia|].
  intros t x y Ht Hx Hy. rewrite Hr in Hx by lia. injection Hx as <-.
  apply get_lookup in Hy as <-. rewrite get_linear by lia.
  unfold convolution. by destruct t.
Qed.

Lemma last_linear a b carry p :
  last (linear a b carry p) =
    Some (match last p with Some c => num_add num_zero (num_mul c b) | None => carry end).
Proof.
  revert carry. induction p as [|c p IH]; intros carry; [done|].
  simpl linear. rewrite last_cons, IH, last_cons. by destruct (last p).
Qed.

Lemma buildPolynomial_loop_linear roots : forall polynomial,
  buildPolynomial_loop polynomial roots =
    Ok (expand polynomial roots).
Proof.
  induction roots as [|root roots IH]; intros polynomial; [done|].
  simpl. rewrite multiplyPolynomials_linear. simpl. apply IH.
Qed.

Lemma buildPolynomial_linear roots :
  roots <> [] ->
  buildPolynomial roots =
    Ok (expand [num_one] roots).
Proof.
  intros Hne. unfold buildPolynomial. destruct roots; [done|]. apply buildPolynomial_loop_linear.
Qed.

Lemma buildPolynomial_empty : buildPolynomial (num:=num) [] = Err NoRoots.
Proof. done. Qed.

Lemma length_expand roots : forall polynomial,
  length (expand polynomial roots) = (length polynomial + length roots)%nat.
Proof.
  induction roots as [|root roots IH]; intros polynomial; simpl; [lia|].
  rewrite IH, length_linear. lia.
Qed.

(** The loop of [evaluatePolynomial] visits the coefficients in order. *)
Lemma foldl_seq_get {S} (f : S -> num -> S) coefficients : forall s,
  foldl (fun s i => f s (get coefficients i)) s (seq 0 (length coefficients))
  = foldl f s coefficients.
Proof.
  induction coefficients as [|c cs IH]; intros s; [done|].
  simpl length. rewrite foldl_seq_shift. simpl. rewrite <- IH.
  apply foldl_ext_in. by intros.
Qed.

Lemma evaluatePolynomial_foldl coefficients x :
  evaluatePolynomial coefficients x =
    fst (foldl (fun '(result, power) c =>
                  (num_add result (num_mul c power), num_mul power x))
           (num_zero, num_one) coefficients).
Proof.
  unfold evaluatePolynomial. f_equal. rewrite <- foldl_seq_get.
  apply foldl_ext_in. by intros [result power] i _.
Qed.
End Linear.

Lemma foldl_rel {S S' X} (P : S -> S' -> Prop) (f : S -> X -> S) (g : S' -> X -> S') l :
  (forall s s' x, P s s' -> P (f s x) (g s' x)) ->
  forall s s', P s s' -> P (foldl f s l) (foldl g s' l).
Proof.
  intros Hstep. induction l as [|x l IH]; intros s s' Hs; [done|].
  simpl. by apply IH, Hstep.
Qed.

(** The solver maps related inputs to related outputs, for any two
    arithmetics whose operations respect a relation [R] between values and
    a finer relation [Rs] between accumulated sums. *)
Section Transfer.
Context {A B : Type} `{Arith A} `{Arith B}.
Variables R Rs : A -> B -> Prop.
Hypothesis Rs_R : forall a b, Rs a b -> R a b.
Hypothesis Rs_zero : Rs num_zero num_zero.
Hypothesis Rs_one : Rs num_one num_one.
Hypothesis Rs_undef : Rs num_undef num_undef.
Hypothesis Rs_add : forall a b a' b', Rs a b -> R a' b' -> Rs (num_add a a') (num_add b b').
Hypothesis R_mul : forall a b a' b', R a b -> R a' b' -> R (num_mul a a') (num_mul b b').
Hypothesis R_neg : forall a b, R a b -> R (num_neg a) (num_neg b).

Lemma get_rel (X : A -> B -> Prop) l l' i :
  X num_undef num_undef -> Forall2 X l l' -> X (get l i) (get l' i).
Proof.
  intros Hu Hl. unfold get.
  pose proof (Forall2_lookup X l l') as [Hlk _]. specialize (Hlk Hl i).
  by destruct Hlk.
Qed.

Lemma assign_rel (X : A -> B -> Prop) l l' i x x' :
  X num_undef num_undef -> Forall2 X l l' -> X x x' ->
  Forall2 X (assign l i x) (assign l' i x').
Proof.
  intros Hu Hl Hx. unfold assign. rewrite <- (Forall2_length _ _ _ Hl).
  destruct (i <? length l)%nat.
  - by apply Forall2_insert.
  - apply Forall2_app; [done|]. apply Forall2_app; [|by constructor].
    by apply Forall2_replicate.
Qed.

Lemma multiplyPolynomials_rel p1 p1' p2 p2' :
  Forall2 R p1 p1' -> Forall2 R p2 p2' ->
  result_rel (Forall2 Rs) (multiplyPolynomials p1 p2) (multiplyPolynomials p1' p2').
Proof.
  intros H1 H2. unfold multiplyPolynomials.
  rewrite <- (Forall2_length _ _ _ H1), <- (Forall2_length _ _ _ H2).
  destruct (length p1 + length p2 =? 0)%nat; constructor.
  apply foldl_rel; [|by apply Forall2_replicate].
  intros r r' i Hr. apply foldl_rel; [|done].
  intros s s' j Hs. apply assign_rel; [done..|].
  apply Rs_add; [by apply get_rel|].
  apply R_mul; apply get_rel; auto.
Qed.

Lemma buildPolynomial_loop_rel roots roots' :
  Forall2 R roots roots' -> forall p p', Forall2 Rs p p' ->
  result_rel (Forall2 Rs) (buildPolynomial_loop p roots) (buildPolynomial_loop p' roots').
Proof.
  induction 1 as [|root root' roots roots' Hroot Hroots IH]; intros p p' Hp; [by constructor|].
  simpl.
  destruct (multiplyPolynomials_rel p p' [num_neg root; num_one] [num_neg root'; num_one])
    as [q q' Hq|e]; [|by repeat constructor; auto|..]; simpl.
  - eapply Forall2_impl; [done|auto].
  - by apply IH.
  - constructor.
Qed.

Lemma buildPolynomial_rel roots roots' :
  Forall2 R roots roots' ->
  result_rel (Forall2 Rs) (buildPolynomial roots) (buildPolynomial roots').
Proof.
  intros Hr. unfold buildPolynomial. rewrite <- (Forall2_length _ _ _ Hr).
  destruct (length roots =? 0)%nat; [constructor|].
  apply buildPolynomial_loop_rel; [done|]. by repeat constructor.
Qed.

Lemma evaluatePolynomial_rel cs cs' x x' :
  Forall2 R cs cs' -> R x x' ->
  Rs (evaluatePolynomial cs x) (evaluatePolynomial cs' x').
Proof.
  intros Hcs Hx. unfold evaluatePolynomial. rewrite <- (Forall2_length _ _ _ Hcs).
  set (P := fun (s : A * A) (s' : B * B) => Rs s.1 s'.1 /\ R s.2 s'.2).
  enough (HP : P (foldl (fun '(result, power) i =>
                      (num_add result (num_mul (get cs i) power), num_mul power x))
                   (num_zero, num_one) (seq 0 (length cs)))
                 (foldl (fun '(result, power) i =>
                      (num_add result (num_mul (get cs' i) power), num_mul power x'))
                   (num_zero, num_one) (seq 0 (length cs)))) by apply HP.
  apply (foldl_rel P); [|split; simpl; auto].
  intros [r p] [r' p'] i [Hr Hp]; simpl in *. split; simpl.
  - apply Rs_add; [done|]. apply R_mul; [|done]. apply get_rel; auto.
  - by apply R_mul.
Qed.
End Transfer.


(** ** Doubles against exact integers *)

Lemma check_Some z z' : check z = Some z' -> z' = z /\ exact z = true.
Proof. unfold check. destruct (exact z) eqn:E; [|done]. by intros [= <-]. Qed.

Lemma Rs_R_num f o : Rs_num f o -> R_num f o.
Proof. destruct o as [z|]; [|done]. intros [-> Hex]. by apply exact_rep. Qed.

Lemma Rs_num_add f o f' o' :
  Rs_num f o -> R_num f' o' -> Rs_num (num_add f f') (num_add o o').
Proof.
  destruct o as [a|], o' as [b|]; try done. simpl.
  intros [-> Ha] Hb. destruct (check (a + b)) as [c|] eqn:Hc; [|done].
  apply check_Some in Hc as [-> Hc]. split; [|done].
  apply js_add_rep; auto. by apply exact_rep.
Qed.

Lemma R_num_mul f o f' o' :
  R_num f o -> R_num f' o' -> R_num (num_mul f f') (num_mul o o').
Proof.
  destruct o as [a|], o' as [b|]; try done. simpl.
  intros Ha Hb. destruct (check (a * b)) as [c|] eqn:Hc; [|done].
  apply check_Some in Hc as [-> Hc]. by apply js_mul_rep.
Qed.

Lemma R_num_neg f o : R_num f o -> R_num (num_neg f) (num_neg o).
Proof. destruct o as [a|]; [|done]. apply rep_neg. Qed.

Lemma Forall2_Rs_num fs p :
  Forall2 Rs_num fs (Some <$> p) -> fs = Z2num <$> p /\ Forall (fun z => exact z = true) p.
Proof.
  revert fs. induction p as [|z p IH]; intros fs Hfs.
  - by apply Forall2_nil_inv_r in Hfs as ->.
  - apply Forall2_cons_inv_r in Hfs as (f & fs' & [-> Hex] & Hfs' & ->).
    destruct (IH _ Hfs') as [-> Hall]. split; [done|by constructor].
Qed.

Lemma Forall2_R_num roots zs : Forall2 rep roots zs -> Forall2 R_num roots (Some <$> zs).
Proof. intros H. apply Forall2_fmap_r. eapply Forall2_impl; [done|auto]. Qed.

Lemma Forall2_R_int p q : Forall2 R_int (Some <$> p) q -> q = p.
Proof.
  revert q. induction p as [|z p IH]; intros q Hq.
  - by apply Forall2_nil_inv_l in Hq as ->.
  - apply Forall2_cons_inv_l in Hq as (z' & q' & <- & Hq' & ->). by rewrite (IH _ Hq').
Qed.

Lemma R_int_refl zs : Forall2 R_int (Some <$> zs) zs.
Proof. apply Forall2_fmap_l. by apply Forall_Forall2_diag, Forall_forall. Qed.

Lemma R_int_add o z o' z' : R_int o z -> R_int o' z' -> R_int (num_add o o') (num_add z z').
Proof.
  destruct o as [a|], o' as [b|]; try done. simpl. intros <- <-.
  destruct (check (a + b)) as [c|] eqn:Hc; [|done]. by apply check_Some in Hc as [-> _].
Qed.

Lemma R_int_mul o z o' z' : R_int o z -> R_int o' z' -> R_int (num_mul o o') (num_mul z z').
Proof.
  destruct o as [a|], o' as [b|]; try done. simpl. intros <- <-.
  destruct (check (a * b)) as [c|] eqn:Hc; [|done]. by apply check_Some in Hc as [-> _].
Qed.

Lemma R_int_neg o z : R_int o z -> R_int (num_neg o) (num_neg z).
Proof. destruct o as [a|]; [|done]. by intros <-. Qed.

(** When the checked run of [buildPolynomial] succeeds, the run on doubles
    and the run on integers return the same coefficients. *)
Lemma buildPolynomial_checked zs p :
  buildPolynomial (Some <$> zs) = Ok (Some <$> p) ->
  buildPolynomial zs = Ok p /\
  forall roots, Forall2 rep roots zs ->
    buildPolynomial roots = Ok (Z2num <$> p) /\ Forall2 rep (Z2num <$> p) p.
Proof.
  intros Hrun. split.
  - assert (Hrel : result_rel (Forall2 R_int) (buildPolynomial (Some <$> zs))
                     (buildPolynomial zs)).
    { apply (buildPolynomial_rel R_int R_int);
        auto using R_int_add, R_int_mul, R_int_neg, R_int_refl; done. }
    rewrite Hrun in Hrel. inversion Hrel as [x y Hxy|]; subst.
    by rewrite (Forall2_R_int _ _ Hxy).
  - intros roots Hroots.
    assert (Hrel : result_rel (Forall2 Rs_num) (buildPolynomial roots)
                     (buildPolynomial (Some <$> zs))).
    { apply (buildPolynomial_rel R_num Rs_num);
        auto using Rs_R_num, Rs_num_add, R_num_mul, R_num_neg, Forall2_R_num; done. }
    rewrite Hrun in Hrel. inversion Hrel as [x y Hxy|]; subst.
    destruct (Forall2_Rs_num _ _ Hxy) as [-> Hex]. split; [done|].
    apply Forall2_fmap_l, Forall_Forall2_diag.
    eapply Forall_impl; [done|]. intros z Hz. by apply exact_rep.
Qed.

Lemma evaluatePolynomial_checked p z v :
  evaluatePolynomial (Some <$> p) (Some z) = Some v ->
  evaluatePolynomial p z = v /\
  forall cs x, Forall2 rep cs p -> rep x z -> evaluatePolynomial cs x = Z2num v.
Proof.
  intros Hrun. split.
  - assert (Hrel : R_int (evaluatePolynomial (Some <$> p) (Some z)) (evaluatePolynomial p z)).
    { apply (evaluatePolynomial_rel R_int R_int);
        auto using R_int_add, R_int_mul, R_int_refl; done. }
    rewrite Hrun in Hrel. done.
  - intros cs x Hcs Hx.
    assert (Hrel : Rs_num (evaluatePolynomial cs x) (evaluatePolynomial (Some <$> p) (Some z))).
    { apply (evaluatePolynomial_rel R_num Rs_num);
        auto using Rs_R_num, Rs_num_add, R_num_mul, Forall2_R_num; done. }
    rewrite Hrun in Hrel. by destruct Hrel.
Qed.

(** ** Polynomials over the integers *)

Lemma foldl_permutation {S X} (f : S -> X -> S) l l' :
  (forall s x y, f (f s x) y = f (f s y) x) ->
  l ≡ₚ l' -> forall s, foldl f s l = foldl f s l'.
Proof.
  intros Hf. induction 1 as [|x l l' _ IH|x y l|l l' l'' _ IH1 _ IH2]; intros s; simpl.
  - done.
  - apply IH.
  - by rewrite Hf.
  - by rewrite IH1.
Qed.

Lemma Forall2_permutation {X Y} (P : X -> Y -> Prop) l l' :
  l ≡ₚ l' -> forall k, Forall2 P l k -> exists k', k ≡ₚ k' /\ Forall2 P l' k'.
Proof.
  induction 1 as [|x l l' _ IH|x y l|l l' l'' _ IH1 _ IH2]; intros k Hk.
  - exists k. done.
  - apply Forall2_cons_inv_l in Hk as (z & k0 & Hz & Hk0 & ->).
    destruct (IH _ Hk0) as (k' & Hp & Hk'). exists (z :: k'). split; by constructor.
  - apply Forall2_cons_inv_l in Hk as (z & k0 & Hz & Hk0 & ->).
    apply Forall2_cons_inv_l in Hk0 as (z' & k1 & Hz' & Hk1 & ->).
    exists (z' :: z :: k1). split; [apply perm_swap|by repeat constructor].
  - destruct (IH1 _ Hk) as (k' & Hp & Hk'). destruct (IH2 _ Hk') as (k'' & Hp' & Hk'').
    exists k''. split; [by etrans|done].
Qed.

Section Integers.
Implicit Types (p : list Z) (a b c x r : Z).

Lemma evaluatePolynomial_polyval p x : evaluatePolynomial p x = polyval p x.
Proof.
  rewrite evaluatePolynomial_foldl.
  enough (Hgen : forall result power,
    fst (foldl (fun '(result, power) c => (num_add result (num_mul c power), num_mul power x))
           (result, power) p) = result + power * polyval p x).
  { rewrite Hgen. simpl. lia. }
  induction p as [|c p IH]; intros result power; simpl; [lia|].
  rewrite IH. lia.
Qed.

Lemma polyval_linear a b carry p x :
  polyval (linear a b carry p) x = carry + (a + b * x) * polyval p x.
Proof.
  revert carry. induction p as [|c p IH]; intros carry; simpl; [lia|].
  rewrite IH. lia.
Qed.

Lemma polyval_expand roots : forall p x,
  polyval (expand p roots) x = polyval p x * root_product roots x.
Proof.
  induction roots as [|r roots IH]; intros p x; simpl; [lia|].
  unfold expand in *. simpl. rewrite IH, polyval_linear. simpl. lia.
Qed.

Lemma root_product_root roots r : r ∈ roots -> root_product roots r = 0.
Proof.
  induction 1 as [r roots|r r' roots _ IH]; simpl; [lia|]. rewrite IH. lia.
Qed.

Lemma linear_comm a b p : forall c d d',
  d + c * a = d' + c * b ->
  linear a 1 d (linear b 1 c p) = linear b 1 d' (linear a 1 c p).
Proof.
  induction p as [|x p IH]; intros c d d' Hd; simpl.
  - f_equal. lia.
  - f_equal; [lia|]. apply IH. lia.
Qed.

Lemma expand_permutation roots roots' p :
  roots ≡ₚ roots' -> expand p roots = expand p roots'.
Proof.
  intros Hp. unfold expand. apply foldl_permutation; [|done].
  intros s x y. simpl. apply linear_comm. lia.
Qed.

Lemma buildPolynomial_expand roots p :
  buildPolynomial roots = Ok p -> p = expand [1] roots.
Proof.
  destruct roots as [|r roots]; [done|].
  rewrite buildPolynomial_linear by done. by intros [= <-].
Qed.
End Integers.

(** ** Base conversion *)

Lemma legalDigit_radixDigit b c : b <= 16 -> legalDigit b c = radixDigit b c.
Proof.
  intros Hb. unfold legalDigit, radixDigit, digitValue.
  repeat match goal with
         | |- context [(?x <=? ?y)%N] => destruct (N.leb_spec x y)
         end; simpl; try lia;
  repeat match goal with
         | |- context [?x <? b] => destruct (Z.ltb_spec x b)
         end; simpl; try done; try lia; f_equal; lia.
Qed.

Lemma radixDigit_range R c d :
  radixDigit R c = Some d ->
  0 <= d < R /\ ((48 <= c <= 57)%N \/ (97 <= c <= 122)%N \/ (65 <= c <= 90)%N).
Proof.
  unfold radixDigit, digitValue.
  destruct ((48 <=? c) && (c <=? 57))%N eqn:E1;
    [|destruct ((97 <=? c) && (c <=? 122))%N eqn:E2;
      [|destruct ((65 <=? c) && (c <=? 90))%N eqn:E3; [|done]]];
  match goal with |- context [?d <? R] => destruct (Z.ltb_spec d R); [|done] end;
  intros [= <-];
  match goal with H : (_ && _)%N = true |- _ =>
    apply andb_true_iff in H as [?%N.leb_le ?%N.leb_le] end; lia.
Qed.

Lemma isWhiteSpace_digit R c d : radixDigit R c = Some d -> isWhiteSpace c = false.
Proof.
  intros [_ Hc]%radixDigit_range. unfold isWhiteSpace. simpl.
  repeat (rewrite (proj2 (N.eqb_neq c _)) by lia). simpl.
  apply andb_false_iff. left. apply N.leb_gt. lia.
Qed.

Lemma digitsPrefix_digitString b value :
  b <= 16 -> Forall (fun c => is_Some (legalDigit b c)) value ->
  digitsPrefix b value = (fun c => default 0 (legalDigit b c)) <$> value.
Proof.
  intros Hb. induction 1 as [|c value [d Hd] _ IH]; [done|].
  simpl. rewrite <- legalDigit_radixDigit, Hd, IH by done. done.
Qed.

Lemma mathInt_stringValue b value : forall acc,
  foldl (fun acc d => acc * b + d) acc ((fun c => default 0 (legalDigit b c)) <$> value)
  = acc * b ^ Z.of_nat (length value) + stringValue b value.
Proof.
  induction value as [|c value IH]; intros acc; simpl length; simpl stringValue.
  - simpl. lia.
  - rewrite fmap_cons. simpl foldl. rewrite IH, Nat2Z.inj_succ, Z.pow_succ_r by lia. lia.
Qed.

Lemma ToInt32_small z : - 2 ^ 31 <= z < 2 ^ 31 -> ToInt32 z = z.
Proof. intros Hz. unfold ToInt32. rewrite Z.mod_small; lia. Qed.

Lemma digits_digitString b value :
  b <= 16 -> digitString b value ->
  match digitsPrefix b value with
  | [] => js_nan
  | digits =>
      let m := mathInt b digits in
      if m =? 0 then S754_zero false else Z2num m
  end = Z2num (stringValue b value).
Proof.
  intros Hb [Hne Hall]. rewrite digitsPrefix_digitString by done.
  destruct value as [|c rest]; [done|].
  assert (Hm : mathInt b ((fun c => default 0 (legalDigit b c)) <$> (c :: rest))
               = stringValue b (c :: rest)).
  { unfold mathInt. rewrite mathInt_stringValue. lia. }
  rewrite fmap_cons in *. cbv zeta iota beta. rewrite Hm.
  by destruct (Z.eqb_spec (stringValue b (c :: rest)) 0) as [->|].
Qed.

(** [parseInt] on a string of legal digits. *)
Lemma parseInt_digitString b value :
  2 <= b <= 16 -> digitString b value -> parseInt value b = Z2num (stringValue b value).
Proof.
  intros Hb Hv. pose proof Hv as [Hne Hall].
  destruct value as [|c rest]; [done|].
  pose proof (Forall_inv Hall) as [d Hd]. rewrite legalDigit_radixDigit in Hd by lia.
  pose proof (radixDigit_range _ _ _ Hd) as [Hdr Hc].
  unfold parseInt. simpl trimStart. rewrite (isWhiteSpace_digit _ _ _ Hd).
  rewrite (proj2 (N.eqb_neq c 45)), (proj2 (N.eqb_neq c 43)) by lia.
  rewrite ToInt32_small by lia.
  replace (negb (b =? 0) && ((b <? 2) || (36 <? b))) with false.
  2:{ symmetry. apply andb_false_iff. right. apply orb_false_iff. split;
        [apply Z.ltb_ge|apply Z.ltb_ge]; lia. }
  rewrite (proj2 (Z.eqb_neq b 0)) by lia. rewrite orb_false_l.
  destruct rest as [|c1 rest'].
  - apply (digits_digitString b [c]); [lia|done].
  - apply Forall_inv_tail, Forall_inv in Hall as [d1 Hd1].
    rewrite legalDigit_radixDigit in Hd1 by lia.
    replace ((c1 =? 120) || (c1 =? 88))%N with false.
    + rewrite andb_false_r. apply (digits_digitString b (c :: c1 :: rest')); [lia|done].
    + symmetry. apply orb_false_iff. split; apply N.eqb_neq; intros ->;
        change (radixDigit b _) with (if 33 <? b then Some 33 else None) in Hd1;
        by destruct (Z.ltb_spec 33 b); try lia.
Qed.

Lemma convertToDecimal_digitString b value :
  2 <= b <= 16 -> digitString b value ->
  convertToDecimal value b = Ok (Z2num (stringValue b value)).
Proof.
  intros Hb Hv. unfold convertToDecimal.
  replace ((b <? 2) || (16 <? b)) with false
    by (symmetry; apply orb_false_iff; split; apply Z.ltb_ge; lia).
  destruct Hv as [Hne Hall]. destruct value as [|c rest]; [done|]. simpl length.
  rewrite parseInt_digitString by done. by rewrite Z2num_not_nan.
Qed.

Lemma convertToDecimal_InvalidBase value base :
  (exists e, convertToDecimal value base = Err e /\ kind_of e = InvalidBase) <->
  base < 2 \/ 16 < base.
Proof.
  unfold convertToDecimal. split.
  - intros (e & He & Hk).
    destruct (Z.ltb_spec base 2); [lia|]. destruct (Z.ltb_spec 16 base); [lia|].
    simpl in He. destruct (length value =? 0)%nat; [by injection He as <-|].
    destruct (isNaN _); [by injection He as <-|done].
  - intros Hb. exists (UnsupportedBase base). split; [|done].
    by replace ((base <? 2) || (16 <? base)) with true
      by (symmetry; apply orb_true_iff; destruct Hb;
          [left; apply Z.ltb_lt|right; apply Z.ltb_lt]; lia).
Qed.

(** ** Properties of the solver on doubles *)

Lemma rep_functional f z z' : rep f z -> rep f z' -> z = z'.
Proof. intros [_ H1] [_ H2]. congruence. Qed.

Lemma buildPolynomial_leading root roots :
  exists p, buildPolynomial (root :: roots) = Ok p /\
    length p = S (length (root :: roots)) /\ last p = Some (Z2num 1).
Proof.
  rewrite buildPolynomial_linear by done. eexists. split; [done|].
  split; [by rewrite length_expand|].
  generalize (root :: roots). intros l.
  assert (Hgen : forall p : list number, last p = Some (Z2num 1) ->
    last (expand p l) = Some (Z2num 1)); [|by apply Hgen].
  induction l as [|r l IH]; intros p Hp; [done|].
  simpl. apply IH. rewrite last_linear, Hp. done.
Qed.

Lemma verifyRoots_Forall coefficients roots :
  verifyRoots coefficients roots = true <->
  Forall (fun root => js_gt (js_abs (evaluatePolynomial coefficients root)) tolerance = false)
    roots.
Proof.
  induction roots as [|root roots IH]; simpl.
  - split; [by constructor|done].
  - destruct (js_gt _ tolerance) eqn:E.
    + split; [done|]. intros H. apply Forall_inv in H. congruence.
    + rewrite IH. split; [by constructor|]. apply Forall_inv_tail.
Qed.

Lemma stringValue_nonneg b value :
  0 <= b <= 16 -> Forall (fun c => is_Some (legalDigit b c)) value -> 0 <= stringValue b value.
Proof.
  intros Hb. induction 1 as [|c value [d Hd] _ IH]; simpl; [lia|].
  rewrite Hd. simpl. rewrite legalDigit_radixDigit in Hd by lia.
  apply radixDigit_range in Hd as [Hd _].
  assert (0 <= b ^ Z.of_nat (length value)) by (apply Z.pow_nonneg; lia). nia.
Qed.

(** ** The claims *)

Local Ltac rep_list := repeat constructor; vm_compute; split; reflexivity.
Local Ltac forall_is_Some :=
  repeat (constructor; [vm_compute; eexists; reflexivity|]); constructor.

(** C1, as stated, fails: for the roots 4, 7, 12 the code does not return
    336, -172, 23, -1, and the top coefficient it returns is not -1. *)
Lemma buildPolynomial_4_7_12_counterexample :
  exists p, buildPolynomial (Z2num <$> [4; 7; 12]) = Ok p /\
    p <> Z2num <$> [336; -172; 23; -1] /\ last p <> Some (Z2num (-1)).
Proof. eexists. split; [by vm_compute|]. split; vm_compute; discriminate. Qed.

(** C1, amended: for the roots 4, 7, 12 [buildPolynomial] returns
    -336, 160, -23, 1, the coefficients of (x-4)(x-7)(x-12) in ascending
    order; and whatever the number of roots, odd or even, the top
    coefficient is 1. *)
Theorem buildPolynomial_4_7_12 :
  buildPolynomial (Z2num <$> [4; 7; 12]) = Ok (Z2num <$> [-336; 160; -23; 1]) /\
  (forall x, polyval [-336; 160; -23; 1] x = (x - 4) * (x - 7) * (x - 12)) /\
  (forall root roots, exists p,
     buildPolynomial (root :: roots) = Ok p /\ last p = Some (Z2num 1)).
Proof.
  split; [by vm_compute|]. split; [intros x; simpl; lia|].
  intros root roots. destruct (buildPolynomial_leading root roots) as (p & Hp & _ & Hl). eauto.
Qed.

(** C2, as stated, fails: for the roots 2^53 and 1 the coefficients returned
    are 2^53, -2^53, 1, a polynomial of which the root 1 is not a root. *)
Lemma buildPolynomial_monic_counterexample :
  Forall2 rep (Z2num <$> [2 ^ 53; 1]) [2 ^ 53; 1] /\
  exists p, buildPolynomial (Z2num <$> [2 ^ 53; 1]) = Ok p /\
    Forall2 rep p [2 ^ 53; - 2 ^ 53; 1] /\
    polyval [2 ^ 53; - 2 ^ 53; 1] 1 <> root_product [2 ^ 53; 1] 1.
Proof.
  split; [rep_list|]. eexists. split; [by vm_compute|]. split; [rep_list|]. by vm_compute.
Qed.

(** C2, amended: for every non-empty list of k roots [buildPolynomial]
    returns k+1 coefficients, the last of which is exactly 1; when the roots
    are integers and no sum or product of the computation leaves the integers
    a double holds exactly, the coefficients are those of the monic
    polynomial (x - r1)...(x - rk). *)
Theorem buildPolynomial_monic root roots :
  exists p, buildPolynomial (root :: roots) = Ok p /\
    length p = S (length (root :: roots)) /\ last p = Some (Z2num 1) /\
    forall zs q,
      Forall2 rep (root :: roots) zs ->
      buildPolynomial (Some <$> zs) = Ok (Some <$> q) ->
      p = Z2num <$> q /\ forall x, polyval q x = root_product zs x.
Proof.
  destruct (buildPolynomial_leading root roots) as (p & Hp & Hlen & Hlast).
  exists p. do 3 (split; [done|]). intros zs q Hrep Hrun.
  destruct (buildPolynomial_checked _ _ Hrun) as [HZ Hnum].
  destruct (Hnum _ Hrep) as [Hp' _]. rewrite Hp in Hp'. injection Hp' as ->.
  split; [done|]. intros x.
  rewrite (buildPolynomial_expand _ _ HZ), polyval_expand. simpl. lia.
Qed.

(** The roots 4, 7, 12. *)
Lemma buildPolynomial_monic_witness :
  exists p, buildPolynomial (Z2num <$> [4; 7; 12]) = Ok p /\
    p = Z2num <$> [-336; 160; -23; 1] /\
    forall x, polyval [-336; 160; -23; 1] x = root_product [4; 7; 12] x.
Proof.
  destruct (buildPolynomial_monic (Z2num 4) (Z2num <$> [7; 12])) as (p & Hp & _ & _ & H).
  exists p. split; [exact Hp|].
  apply (H [4; 7; 12] [-336; 160; -23; 1]); [rep_list|vm_compute; reflexivity].
Defined.

(** C3, as stated, fails: the roots 2^53, 1, 1 and their permutation
    1, 1, 2^53 give different coefficients. *)
Lemma buildPolynomial_permutation_counterexample :
  Z2num <$> [2 ^ 53; 1; 1] ≡ₚ Z2num <$> [1; 1; 2 ^ 53] /\
  buildPolynomial (Z2num <$> [2 ^ 53; 1; 1]) <> buildPolynomial (Z2num <$> [1; 1; 2 ^ 53]).
Proof.
  split; [|vm_compute; discriminate].
  cbn [fmap list_fmap]. etrans; [apply perm_swap|]. apply perm_skip, perm_swap.
Qed.

(** C3, amended: when the roots are integers and, in both orders, no sum or
    product of the computation leaves the integers a double holds exactly,
    [buildPolynomial] returns the same coefficients for a list of roots and
    for a permutation of it. *)
Theorem buildPolynomial_permutation roots roots' zs zs' p p' :
  roots ≡ₚ roots' ->
  Forall2 rep roots zs -> Forall2 rep roots' zs' ->
  buildPolynomial (Some <$> zs) = Ok (Some <$> p) ->
  buildPolynomial (Some <$> zs') = Ok (Some <$> p') ->
  exists cs, buildPolynomial roots = Ok cs /\ buildPolynomial roots' = Ok cs.
Proof.
  intros Hperm Hrep Hrep' Hrun Hrun'.
  destruct (buildPolynomial_checked _ _ Hrun) as [HZ Hnum].
  destruct (buildPolynomial_checked _ _ Hrun') as [HZ' Hnum'].
  destruct (Hnum _ Hrep) as [Hp _]. destruct (Hnum' _ Hrep') as [Hp' _].
  destruct (Forall2_permutation rep _ _ Hperm _ Hrep) as (zs'' & Hzs & Hrep'').
  assert (zs'' = zs') as ->
    by (eapply Forall2_unique; [done..|]; intros; by eapply rep_functional).
  exists (Z2num <$> p). split; [done|]. rewrite Hp'.
  rewrite (buildPolynomial_expand _ _ HZ), (buildPolynomial_expand _ _ HZ').
  by rewrite (expand_permutation _ _ _ Hzs).
Qed.

(** The roots 4, 7, 12 and their rotation 12, 4, 7. *)
Lemma buildPolynomial_permutation_witness :
  exists cs, buildPolynomial (Z2num <$> [4; 7; 12]) = Ok cs /\
             buildPolynomial (Z2num <$> [12; 4; 7]) = Ok cs.
Proof.
  apply (buildPolynomial_permutation _ _ [4; 7; 12] [12; 4; 7]
           [-336; 160; -23; 1] [-336; 160; -23; 1]).
  - cbn [fmap list_fmap]. etrans; [apply perm_skip, perm_swap|]. apply perm_swap.
  - rep_list.
  - rep_list.
  - vm_compute; reflexivity.
  - vm_compute; reflexivity.
Defined.

(** C4, as stated, fails: the polynomial built from the roots 2^53 and 1
    evaluates to 1, not 0, at the root 1. *)
Lemma evaluatePolynomial_roots_counterexample :
  exists p, buildPolynomial (Z2num <$> [2 ^ 53; 1]) = Ok p /\
    evaluatePolynomial p (Z2num 1) = Z2num 1 /\ verifyRoots p (Z2num <$> [2 ^ 53; 1]) = false.
Proof. eexists. split; [by vm_compute|]. split; by vm_compute. Qed.

(** C4, amended: when the roots are integers and no sum or product, in
    building the polynomial and in evaluating it at the roots, leaves the
    integers a double holds exactly, the polynomial built from the roots
    evaluates to exactly 0 at each of them. *)
Theorem evaluatePolynomial_roots roots zs p :
  Forall2 rep roots zs ->
  buildPolynomial (Some <$> zs) = Ok (Some <$> p) ->
  Forall (fun z => is_Some (evaluatePolynomial (Some <$> p) (Some z))) zs ->
  exists cs, buildPolynomial roots = Ok cs /\
    Forall (fun root => evaluatePolynomial cs root = js_zero) roots.
Proof.
  intros Hrep Hrun Heval.
  destruct (buildPolynomial_checked _ _ Hrun) as [HZ Hnum].
  destruct (Hnum _ Hrep) as [Hp Hcs].
  exists (Z2num <$> p). split; [done|].
  apply Forall_lookup. intros i root Hroot.
  destruct (Forall2_lookup_l _ _ _ _ _ Hrep Hroot) as (z & Hz & Hrz).
  destruct (proj1 (Forall_lookup _ _) Heval _ _ Hz) as [v Hv].
  destruct (evaluatePolynomial_checked _ _ _ Hv) as [Hval Hev].
  rewrite (Hev _ _ Hcs Hrz), <- Hval, evaluatePolynomial_polyval.
  rewrite (buildPolynomial_expand _ _ HZ), polyval_expand, root_product_root;
    [by rewrite Z.mul_0_r|].
  by eapply list_elem_of_lookup_2.
Qed.

(** The roots 4, 7, 12. *)
Lemma evaluatePolynomial_roots_witness :
  exists cs, buildPolynomial (Z2num <$> [4; 7; 12]) = Ok cs /\
    Forall (fun root => evaluatePolynomial cs root = js_zero) (Z2num <$> [4; 7; 12]).
Proof.
  apply (evaluatePolynomial_roots _ [4; 7; 12] [-336; 160; -23; 1]).
  - rep_list.
  - vm_compute; reflexivity.
  - forall_is_Some.
Defined.

(** C5, which the code breaks: the empty string and the string g are
    rejected in base 16, but the string 1g, which is not a string of base-16
    digits either, is not: [convertToDecimal] returns 1, the value of its
    legal prefix, and [isValidNumber] accepts it. *)
Theorem convertToDecimal_legal_prefix :
  (convertToDecimal [] 16 = Err EmptyValue /\
   convertToDecimal (str "g") 16 = Err (InvalidValue (str "g") 16)) /\
  ~ digitString 16 (str "1g") /\
  convertToDecimal (str "1g") 16 = Ok (Z2num 1) /\
  isValidNumber (str "1g") 16 = true.
Proof.
  split; [split; by vm_compute|]. split; [|split; by vm_compute].
  intros [_ H]. apply Forall_inv_tail, Forall_inv in H as [d Hd]. by vm_compute in Hd.
Qed.

(** C6, as stated, fails: 9007199254740993 is a string of decimal digits,
    and [convertToDecimal] returns 9007199254740992 for it. *)
Lemma convertToDecimal_exact_counterexample :
  digitString 10 (str "9007199254740993") /\
  stringValue 10 (str "9007199254740993") = 9007199254740993 /\
  exists f, convertToDecimal (str "9007199254740993") 10 = Ok f /\
            num2Z f = Some 9007199254740992.
Proof.
  split; [split; [done|forall_is_Some]|].
  split; [by vm_compute|]. eexists. split; by vm_compute.
Qed.

(** C6, amended: for every non-empty string of digits legal in base b,
    2 <= b <= 16, that denotes an integer of at most 2^53,
    [convertToDecimal] returns exactly that integer. *)
Theorem convertToDecimal_exact b value :
  2 <= b <= 16 -> digitString b value -> stringValue b value <= 2 ^ 53 ->
  exists f, convertToDecimal value b = Ok f /\ num2Z f = Some (stringValue b value).
Proof.
  intros Hb Hv Hle. eexists. split; [by apply convertToDecimal_digitString|].
  apply exact_rep, safe_exact.
  pose proof (stringValue_nonneg b value ltac:(lia) (proj2 Hv)). lia.
Qed.

(** "ff" in base 16 is 255. *)
Lemma convertToDecimal_exact_witness :
  exists f, convertToDecimal (str "ff") 16 = Ok f /\ num2Z f = Some 255.
Proof.
  apply (convertToDecimal_exact 16 (str "ff")).
  - lia.
  - split; [discriminate|forall_is_Some].
  - vm_compute. discriminate.
Defined.

(** C7, as stated, fails: the one-coefficient polynomial 2^-40 evaluates to
    2^-40 at 0, which is not zero, and [verifyRoots] returns true. *)
Lemma verifyRoots_counterexample :
  let c := S754_finite false 4503599627370496 (-92) in
  valid_binary prec emax c = true /\
  evaluatePolynomial [c] js_zero = c /\
  verifyRoots [c] [js_zero] = true.
Proof. by vm_compute. Qed.

(** C7, amended: [verifyRoots] returns true if and only if at no root the
    absolute value of the polynomial exceeds the tolerance 1e-10; when the
    coefficients and the roots are integers and no sum or product of the
    evaluations leaves the integers a double holds exactly, that is the case
    if and only if the polynomial is exactly zero at every root. *)
Theorem verifyRoots_iff coefficients roots :
  (verifyRoots coefficients roots = true <->
   Forall (fun root =>
             js_gt (js_abs (evaluatePolynomial coefficients root)) tolerance = false) roots) /\
  (forall p zs,
     Forall2 rep coefficients p -> Forall2 rep roots zs ->
     Forall (fun z => is_Some (evaluatePolynomial (Some <$> p) (Some z))) zs ->
     (verifyRoots coefficients roots = true <-> Forall (fun z => polyval p z = 0) zs)).
Proof.
  split; [apply verifyRoots_Forall|].
  intros p zs Hcs Hrep Heval. rewrite verifyRoots_Forall.
  induction Hrep as [|root z roots zs Hrz Hrep IH].
  - split; constructor.
  - apply Forall_cons in Heval as [[v Hv] Heval].
    destruct (evaluatePolynomial_checked _ _ _ Hv) as [Hval Hev].
    rewrite !Forall_cons, (IH Heval), (Hev _ _ Hcs Hrz).
    assert (Hex : rep (Z2num v) v).
    { pose proof (evaluatePolynomial_rel R_num Rs_num Rs_R_num) as Hrel.
      specialize (Hrel ltac:(done) ltac:(done) ltac:(done) Rs_num_add R_num_mul
                    _ _ root (Some z) (Forall2_R_num _ _ Hcs) Hrz).
      rewrite Hv in Hrel. destruct Hrel as [_ Hex]. by apply exact_rep. }
    rewrite (js_gt_tolerance_rep _ _ Hex), <- evaluatePolynomial_polyval, Hval.
    destruct (Z.eqb_spec v 0); simpl; intuition congruence.
Qed.

(** The polynomial (x-4)(x-7)(x-12) and its roots. *)
Lemma verifyRoots_iff_witness :
  verifyRoots (Z2num <$> [-336; 160; -23; 1]) (Z2num <$> [4; 7; 12]) = true <->
  Forall (fun z => polyval [-336; 160; -23; 1] z = 0) [4; 7; 12].
Proof.
  apply (proj2 (verifyRoots_iff (Z2num <$> [-336; 160; -23; 1]) (Z2num <$> [4; 7; 12]))).
  - rep_list.
  - rep_list.
  - forall_is_Some.
Defined.

(** C8: [convertToDecimal] fails with an error of kind InvalidBase exactly
    when the base is below 2 or above 16; so it does for base 17, whatever
    the value. *)
Theorem convertToDecimal_InvalidBase_iff value base :
  ((exists e, convertToDecimal value base = Err e /\ kind_of e = InvalidBase) <->
   base < 2 \/ 16 < base) /\
  convertToDecimal value 17 = Err (UnsupportedBase 17).
Proof. split; [apply convertToDecimal_InvalidBase|done]. Qed.

(** Base 17. *)
Lemma convertToDecimal_InvalidBase_iff_witness :
  exists e, convertToDecimal (str "12") 17 = Err e /\ kind_of e = InvalidBase.
Proof.
  apply (proj1 (convertToDecimal_InvalidBase_iff (str "12") 17)). right. lia.
Defined.

(** C9: for a single root holding the integer z, [buildPolynomial] returns
    exactly the two coefficients -z and 1. *)
Theorem buildPolynomial_single r z :
  rep r z -> buildPolynomial [r] = Ok [Z2num (- z); Z2num 1].
Proof.
  intros Hr. rewrite buildPolynomial_linear by done. simpl. do 2 f_equal.
  pose proof (rep_neg _ _ Hr) as Hn. pose proof (rep_exact _ _ Hn) as Hex.
  assert (H1 : rep js_one 1) by (by vm_compute).
  pose proof (js_mul_rep _ _ _ _ H1 Hn) as Hm.
  replace (1 * - z) with (- z) in Hm by lia. specialize (Hm Hex).
  assert (H0 : rep js_zero 0) by done.
  destruct (js_add_rep _ _ _ _ H0 Hm) as [_ Hs]; [by rewrite Z.add_0_l|].
  rewrite Z.add_0_l in Hs. apply Hs. by left.
Qed.

(** The root 5. *)
Lemma buildPolynomial_single_witness :
  buildPolynomial [Z2num 5] = Ok [Z2num (- 5); Z2num 1].
Proof. apply (buildPolynomial_single (Z2num 5) 5). vm_compute. split; reflexivity. Defined.

(** C10: [multiplyPolynomials] throws a RangeError when both arrays are
    empty; for non-empty arrays of lengths m and n it returns an array of
    length m+n-1 whose entry t is the sum of the products poly1[i]*poly2[j]
    with i+j = t. *)
Theorem multiplyPolynomials_convolution :
  (multiplyPolynomials (num:=number) [] [] = Err InvalidArrayLength /\
   kind_of InvalidArrayLength = RangeError) /\
  forall (a : number) poly1 (b : number) poly2, exists result,
    multiplyPolynomials (a :: poly1) (b :: poly2) = Ok result /\
    length result = (length (a :: poly1) + length (b :: poly2) - 1)%nat /\
    forall t, (t < length result)%nat ->
      result !! t = Some (convolution (a :: poly1) (b :: poly2) t).
Proof.
  split; [done|]. intros a poly1 b poly2.
  destruct (multiplyPolynomials_spec (a :: poly1) (b :: poly2)) as (r & Hr & Hlen & Hget);
    [done|].
  exists r. split; [done|]. split; [done|]. intros t Ht. apply Hget. by rewrite <- Hlen.
Qed.

(** (x^2 - 11x + 28)(x - 12): the coefficient of x is 28 + 11*12 = 160. *)
Lemma multiplyPolynomials_convolution_witness :
  exists result,
    multiplyPolynomials (Z2num <$> [28; -11; 1]) (Z2num <$> [-12; 1]) = Ok result /\
    result !! 1%nat = Some (Z2num 160).
Proof.
  destruct (proj2 multiplyPolynomials_convolution (Z2num 28) (Z2num <$> [-11; 1])
              (Z2num (-12)) [Z2num 1]) as (r & Hr & Hlen & Hget).
  exists r. split; [exact Hr|]. rewrite Hget; [vm_compute; reflexivity|].
  rewrite Hlen. vm_compute. lia.
Defined.

(** * Further properties of the code *)

(** ** More on the solver *)

Lemma multiplyPolynomials_empty_r {num} `{Arith num} (poly1 : list num) :
  poly1 <> [] ->
  multiplyPolynomials poly1 [] = Ok (replicate (length poly1 - 1) num_zero).
Proof.
  intros Hne. rewrite multiplyPolynomials_outer.
  destruct poly1 as [|a poly1]; [done|]. simpl length. rewrite Nat.add_0_r. simpl Nat.eqb.
  cbv iota. f_equal. unfold outer. apply foldl_id_in. by intros r i _.
Qed.

Lemma multiplyPolynomials_empty_l {num} `{Arith num} (poly2 : list num) :
  poly2 <> [] ->
  multiplyPolynomials [] poly2 = Ok (replicate (length poly2 - 1) num_zero).
Proof. intros Hne. by destruct poly2. Qed.

(** X1: [multiplyPolynomials] throws, the RangeError of [new Array(-1)], exactly
    when both arguments are empty; when one argument alone is empty it
    returns zeros, one fewer than the other argument has coefficients. *)
Theorem multiplyPolynomials_throws_iff (poly1 poly2 : list number) :
  (forall e, multiplyPolynomials poly1 poly2 = Err e <->
             poly1 = [] /\ poly2 = [] /\ e = InvalidArrayLength) /\
  (poly1 = [] -> poly2 <> [] ->
   multiplyPolynomials poly1 poly2 = Ok (replicate (length poly2 - 1) js_zero)) /\
  (poly1 <> [] -> poly2 = [] ->
   multiplyPolynomials poly1 poly2 = Ok (replicate (length poly1 - 1) js_zero)).
Proof.
  split; [|split].
  - intros e. split.
    + intros He. destruct poly1 as [|a poly1], poly2 as [|b poly2].
      * by injection He as <-.
      * by rewrite multiplyPolynomials_empty_l in He.
      * by rewrite multiplyPolynomials_empty_r in He.
      * by destruct (multiplyPolynomials_spec (a :: poly1) (b :: poly2)) as (r & Hr & _);
          [|rewrite Hr in He].
    + by intros (-> & -> & ->).
  - intros -> Hne. exact (multiplyPolynomials_empty_l (num:=number) poly2 Hne).
  - intros Hne ->. exact (multiplyPolynomials_empty_r (num:=number) poly1 Hne).
Qed.

Lemma multiplyPolynomials_throws_iff_witness :
  multiplyPolynomials [] (Z2num <$> [5; 7; 9]) = Ok [js_zero; js_zero].
Proof.
  change [js_zero; js_zero] with (replicate (length (Z2num <$> [5; 7; 9]) - 1) js_zero).
  apply (proj1 (proj2 (multiplyPolynomials_throws_iff [] (Z2num <$> [5; 7; 9]))));
    [reflexivity|discriminate].
Defined.

(** *** The product over the integers *)

Lemma polyval_map_S (f : nat -> Z) N x :
  polyval (f <$> seq 0 (S N)) x = f 0%nat + x * polyval ((fun t => f (S t)) <$> seq 0 N) x.
Proof. simpl. by rewrite <- fmap_S_seq, <- list_fmap_compose. Qed.

Lemma polyval_map_ext (f g : nat -> Z) N x :
  (forall t, (t < N)%nat -> f t = g t) ->
  polyval (f <$> seq 0 N) x = polyval (g <$> seq 0 N) x.
Proof.
  intros Hfg. f_equal. apply list_fmap_ext. intros i t Ht.
  apply lookup_seq in Ht as [-> Ht]. by apply Hfg.
Qed.

Lemma polyval_map_add (f g : nat -> Z) N x :
  polyval ((fun t => f t + g t) <$> seq 0 N) x
  = polyval (f <$> seq 0 N) x + polyval (g <$> seq 0 N) x.
Proof.
  revert f g. induction N as [|N IH]; intros f g; [done|].
  rewrite !polyval_map_S, (IH (fun t => f (S t)) (fun t => g (S t))). lia.
Qed.

Lemma polyval_map_scale c (f : nat -> Z) N x :
  polyval ((fun t => c * f t) <$> seq 0 N) x = c * polyval (f <$> seq 0 N) x.
Proof.
  revert f. induction N as [|N IH]; intros f; [simpl; lia|].
  rewrite !polyval_map_S, (IH (fun t => f (S t))). lia.
Qed.

Lemma polyval_map_zero N x : polyval ((fun _ => 0) <$> seq 0 N) x = 0.
Proof.
  induction N as [|N IH]; [done|]. rewrite polyval_map_S, IH. lia.
Qed.

(** Reading a list by index, with 0 past its end, gives its polynomial. *)
Lemma polyval_map_get (p : list Z) : forall N x,
  (length p <= N)%nat ->
  polyval ((fun t => if (t <? length p)%nat then get p t else 0) <$> seq 0 N) x = polyval p x.
Proof.
  induction p as [|c p IH]; intros N x HN.
  - simpl. apply polyval_map_zero.
  - destruct N as [|N]; [simpl in HN; lia|].
    rewrite polyval_map_S. simpl. do 2 f_equal.
    rewrite <- (IH N x) by (simpl in HN; lia). done.
Qed.

Lemma foldl_term_acc (p q : list Z) t l acc :
  foldl (term p q t) acc l = acc + foldl (term p q t) 0 l.
Proof.
  revert acc. induction l as [|i l IH]; intros acc; simpl; [lia|].
  rewrite IH, (IH (term p q t 0 i)). unfold term.
  destruct ((i <=? t)%nat && (t - i <? length q)%nat); simpl; lia.
Qed.

Lemma convolution_Z_cons_0 c (p q : list Z) :
  convolution (c :: p) q 0 = if (0 <? length q)%nat then c * get q 0 else 0.
Proof.
  unfold convolution. rewrite convolution_cons_0, term_cons_0.
  by destruct (0 <? length q)%nat.
Qed.

Lemma convolution_Z_cons_S c (p q : list Z) t :
  convolution (c :: p) q (S t) =
  convolution p q t + (if (S t <? length q)%nat then c * get q (S t) else 0).
Proof.
  unfold convolution. rewrite convolution_cons_S, term_cons_0, foldl_term_acc.
  destruct (S t <? length q)%nat; simpl; lia.
Qed.

Lemma polyval_convolution (p q : list Z) x :
  q <> [] ->
  polyval (convolution p q <$> seq 0 (length p + length q - 1)) x = polyval p x * polyval q x.
Proof.
  intros Hq. destruct q as [|b q]; [done|]. clear Hq.
  induction p as [|c p IH].
  - simpl length. rewrite (polyval_map_ext _ (fun _ => 0)) by done.
    rewrite polyval_map_zero. simpl. lia.
  - replace (length (c :: p) + length (b :: q) - 1)%nat
      with (S (length p + length (b :: q) - 1)) by (simpl; lia).
    rewrite polyval_map_S, convolution_Z_cons_0.
    rewrite (polyval_map_ext _ (fun t => convolution p (b :: q) t +
               c * (if (t <? length q)%nat then get q t else 0))).
    2:{ intros t _. rewrite convolution_Z_cons_S. simpl length.
        change (S t <? S (length q))%nat with (t <? length q)%nat.
        destruct (t <? length q)%nat; [done|lia]. }
    rewrite polyval_map_add, polyval_map_scale, IH, polyval_map_get by (simpl; lia).
    simpl. rewrite get_cons_0. lia.
Qed.

Lemma multiplyPolynomials_polyval (p q r : list Z) x :
  multiplyPolynomials p q = Ok r -> polyval r x = polyval p x * polyval q x.
Proof.
  intros Hr. destruct q as [|b q].
  - destruct p as [|a p]; [done|].
    rewrite multiplyPolynomials_empty_r in Hr by done. injection Hr as <-.
    simpl. rewrite Z.mul_0_r. generalize (length p - 0)%nat. intros n.
    induction n as [|n IH]; simpl; [done|]. rewrite IH. lia.
  - destruct (multiplyPolynomials_spec p (b :: q)) as (r' & Hr' & Hlen & Hget);
      [simpl; lia|].
    rewrite Hr in Hr'. injection Hr' as <-.
    rewrite <- polyval_convolution by done. f_equal.
    apply (list_eq_same_length _ _ (length r)); [by rewrite length_fmap, length_seq|done|].
    intros t y z Ht Hy Hz. rewrite Hget in Hy by lia. injection Hy as <-.
    rewrite list_lookup_fmap, lookup_seq_lt in Hz by lia. by injection Hz as <-.
Qed.

(** When the checked run of [multiplyPolynomials] succeeds, the run on
    doubles and the run on integers return the same coefficients. *)
Lemma multiplyPolynomials_checked zs1 zs2 q :
  multiplyPolynomials (Some <$> zs1) (Some <$> zs2) = Ok (Some <$> q) ->
  multiplyPolynomials zs1 zs2 = Ok q /\
  forall poly1 poly2, Forall2 rep poly1 zs1 -> Forall2 rep poly2 zs2 ->
    multiplyPolynomials poly1 poly2 = Ok (Z2num <$> q).
Proof.
  intros Hrun. split.
  - assert (Hrel : result_rel (Forall2 R_int)
                     (multiplyPolynomials (Some <$> zs1) (Some <$> zs2))
                     (multiplyPolynomials zs1 zs2)).
    { apply (multiplyPolynomials_rel R_int R_int);
        auto using R_int_add, R_int_mul, R_int_refl; done. }
    rewrite Hrun in Hrel. inversion Hrel as [x y Hxy|]; subst.
    by rewrite (Forall2_R_int _ _ Hxy).
  - intros poly1 poly2 H1 H2.
    assert (Hrel : result_rel (Forall2 Rs_num) (multiplyPolynomials poly1 poly2)
                     (multiplyPolynomials (Some <$> zs1) (Some <$> zs2))).
    { apply (multiplyPolynomials_rel R_num Rs_num);
        auto using Rs_R_num, Rs_num_add, R_num_mul, Forall2_R_num; done. }
    rewrite Hrun in Hrel. inversion Hrel as [x y Hxy|]; subst.
    by destruct (Forall2_Rs_num _ _ Hxy) as [-> _].
Qed.

(** X2: when both arguments hold integers and no sum or product of the
    computation leaves the integers a double holds exactly,
    [multiplyPolynomials] returns the coefficients of the product: at every
    x the result evaluates to the product of the values of the arguments. *)
Theorem multiplyPolynomials_product poly1 poly2 zs1 zs2 q :
  Forall2 rep poly1 zs1 -> Forall2 rep poly2 zs2 ->
  multiplyPolynomials (Some <$> zs1) (Some <$> zs2) = Ok (Some <$> q) ->
  multiplyPolynomials poly1 poly2 = Ok (Z2num <$> q) /\
  forall x, polyval q x = polyval zs1 x * polyval zs2 x.
Proof.
  intros H1 H2 Hrun. destruct (multiplyPolynomials_checked _ _ _ Hrun) as [HZ Hnum].
  split; [by apply Hnum|]. intros x. by apply multiplyPolynomials_polyval.
Qed.

Lemma multiplyPolynomials_product_witness :
  multiplyPolynomials (Z2num <$> [1; 2; 3]) (Z2num <$> [-4; 0; 5])
    = Ok (Z2num <$> [-4; -8; -7; 10; 15]) /\
  forall x, polyval [-4; -8; -7; 10; 15] x = polyval [1; 2; 3] x * polyval [-4; 0; 5] x.
Proof.
  apply (multiplyPolynomials_product _ _ [1; 2; 3] [-4; 0; 5]).
  - rep_list.
  - rep_list.
  - vm_compute; reflexivity.
Defined.

(** X3: for integer coefficients and an integer x, when no sum or product
    of the evaluation leaves the integers a double holds exactly,
    [evaluatePolynomial] returns exactly c0 + c1 x + ... + cn x^n. *)
Theorem evaluatePolynomial_value coefficients p x z v :
  Forall2 rep coefficients p -> rep x z ->
  evaluatePolynomial (Some <$> p) (Some z) = Some v ->
  evaluatePolynomial coefficients x = Z2num v /\ v = polyval p z.
Proof.
  intros Hcs Hx Hrun. destruct (evaluatePolynomial_checked _ _ _ Hrun) as [Hval Hev].
  split; [by apply Hev|]. by rewrite <- Hval, evaluatePolynomial_polyval.
Qed.

Lemma evaluatePolynomial_value_witness :
  evaluatePolynomial (Z2num <$> [-336; 160; -23; 1]) (Z2num 5) = Z2num 14 /\
  14 = polyval [-336; 160; -23; 1] 5.
Proof.
  apply (evaluatePolynomial_value _ [-336; 160; -23; 1] _ 5).
  - rep_list.
  - vm_compute. split; reflexivity.
  - vm_compute. reflexivity.
Defined.

Lemma expand_snoc {num} `{Arith num} (polynomial roots : list num) r :
  expand polynomial (roots ++ [r]) =
  linear (num_neg r) num_one num_zero (expand polynomial roots).
Proof. unfold expand. by rewrite foldl_app. Qed.

(** X4: on all doubles, one more root at the end of a non-empty list
    multiplies the polynomial built from the list by the factor [-r, 1]. *)
Theorem buildPolynomial_snoc (root : number) roots r :
  buildPolynomial ((root :: roots) ++ [r]) =
  let* polynomial := buildPolynomial (root :: roots) in
  multiplyPolynomials polynomial [js_neg r; js_one].
Proof.
  rewrite (buildPolynomial_linear (root :: roots)) by done.
  rewrite buildPolynomial_linear by done.
  rewrite expand_snoc. simpl bind. by rewrite multiplyPolynomials_linear.
Qed.

Lemma polyval_0 p : polyval p 0 = default 0 (p !! 0%nat).
Proof. destruct p as [|c p]; simpl; lia. Qed.

(** X5: when the roots are integers and no sum or product of the
    computation leaves the integers a double holds exactly, the constant
    term [buildPolynomial] returns is the product (-r1)...(-rk) of the
    negated roots. *)
Theorem buildPolynomial_constant_term roots zs p :
  Forall2 rep roots zs ->
  buildPolynomial (Some <$> zs) = Ok (Some <$> p) ->
  exists cs, buildPolynomial roots = Ok cs /\
    cs !! 0%nat = Some (Z2num (root_product zs 0)).
Proof.
  intros Hrep Hrun. destruct (buildPolynomial_checked _ _ Hrun) as [HZ Hnum].
  destruct (Hnum _ Hrep) as [Hp _]. exists (Z2num <$> p). split; [done|].
  rewrite list_lookup_fmap.
  assert (Hv : polyval p 0 = root_product zs 0).
  { rewrite (buildPolynomial_expand _ _ HZ), polyval_expand. simpl. lia. }
  rewrite polyval_0 in Hv. rewrite <- Hv.
  destruct zs as [|z zs]; [done|].
  assert (Hlen : length p = S (S (length zs))).
  { rewrite (buildPolynomial_expand _ _ HZ), length_expand. simpl. lia. }
  by destruct p.
Qed.

Lemma buildPolynomial_constant_term_witness :
  exists cs, buildPolynomial (Z2num <$> [4; 7; 12]) = Ok cs /\
    cs !! 0%nat = Some (Z2num ((0 - 4) * ((0 - 7) * ((0 - 12) * 1)))).
Proof.
  apply (buildPolynomial_constant_term _ [4; 7; 12] [-336; 160; -23; 1]).
  - rep_list.
  - vm_compute. reflexivity.
Defined.

(** X6: [verifyRoots] accepts every root at which the evaluation gives NaN,
    since [Math.abs(NaN) > tolerance] is false; so it accepts 2^701 as a
    root of x^2 - 2^700 x, which it is not. *)
Theorem verifyRoots_NaN coefficients roots :
  Forall (fun root => isNaN (evaluatePolynomial coefficients root) = true) roots ->
  verifyRoots coefficients roots = true.
Proof.
  intros Hall. apply verifyRoots_Forall. eapply Forall_impl; [done|].
  intros root Hnan. simpl in Hnan.
  by destruct (evaluatePolynomial coefficients root).
Qed.

Lemma verifyRoots_NaN_witness :
  verifyRoots (Z2num <$> [0; - 2 ^ 700; 1]) [Z2num (2 ^ 701)] = true /\
  polyval [0; - 2 ^ 700; 1] (2 ^ 701) <> 0.
Proof.
  split.
  - apply verifyRoots_NaN. repeat constructor.
  - vm_compute. discriminate.
Defined.

Lemma verifyRoots_app coefficients roots1 roots2 :
  verifyRoots coefficients (roots1 ++ roots2)
  = verifyRoots coefficients roots1 && verifyRoots coefficients roots2.
Proof.
  induction roots1 as [|root roots1 IH]; [done|]. simpl.
  by destruct (js_gt _ tolerance).
Qed.

(** X7: the verdict of [verifyRoots] does not depend on the order of the
    roots. *)
Theorem verifyRoots_permutation coefficients roots roots' :
  roots ≡ₚ roots' -> verifyRoots coefficients roots = verifyRoots coefficients roots'.
Proof.
  intros Hperm.
  destruct (verifyRoots coefficients roots) eqn:E, (verifyRoots coefficients roots') eqn:E';
    try done.
  - apply verifyRoots_Forall in E. rewrite Hperm in E.
    apply verifyRoots_Forall in E. congruence.
  - apply verifyRoots_Forall in E'. rewrite <- Hperm in E'.
    apply verifyRoots_Forall in E'. congruence.
Qed.

Lemma verifyRoots_permutation_witness :
  verifyRoots (Z2num <$> [-336; 160; -23; 1]) (Z2num <$> [4; 5; 12])
  = verifyRoots (Z2num <$> [-336; 160; -23; 1]) (Z2num <$> [5; 4; 12]).
Proof. apply verifyRoots_permutation. cbn [fmap list_fmap]. apply perm_swap. Defined.

(** ** More on base conversion *)

Lemma binary_round_aux_opp s m e l :
  SFopp (binary_round_aux prec emax s m e l) = binary_round_aux prec emax (negb s) m e l.
Proof.
  unfold binary_round_aux.
  destruct (shr_fexp prec emax m e l) as [mrs' e'].
  destruct (shr_fexp prec emax _ e' loc_Exact) as [mrs'' e''].
  destruct (shr_m mrs'') as [|p|p]; try done.
  by destruct (e'' <=? emax - prec).
Qed.

Lemma Z2num_opp z : z <> 0 -> Z2num (- z) = js_neg (Z2num z).
Proof.
  intros Hz. unfold Z2num, js_neg.
  destruct z as [|p|p]; [done| |].
  - change (- Z.pos p) with (Z.neg p). unfold binary_normalize, binary_round.
    destruct (shl_align p 0 _) as [mz ez]. by rewrite binary_round_aux_opp.
  - change (- Z.neg p) with (Z.pos p). unfold binary_normalize, binary_round.
    destruct (shl_align p 0 _) as [mz ez]. by rewrite binary_round_aux_opp.
Qed.

Lemma digitsPrefix_app b s tail :
  Forall (fun c => is_Some (radixDigit b c)) s ->
  match tail with [] => True | c :: _ => radixDigit b c = None end ->
  digitsPrefix b (s ++ tail) = digitsPrefix b s.
Proof.
  intros Hs Htail. induction Hs as [|c s [d Hd] _ IH]; simpl.
  - destruct tail as [|c tail]; [done|]. simpl. by rewrite Htail.
  - by rewrite Hd, IH.
Qed.

Lemma digitString_radixDigit b s :
  b <= 16 -> Forall (fun c => is_Some (legalDigit b c)) s ->
  Forall (fun c => is_Some (radixDigit b c)) s.
Proof.
  intros Hb Hs. eapply Forall_impl; [done|]. intros c Hc. simpl in *.
  by rewrite <- legalDigit_radixDigit.
Qed.

(** The digits of a digit string are read in full, and nothing after them. *)
Lemma readDigits_digitString sign b s tail :
  b <= 16 -> digitString b s ->
  match tail with [] => True | c :: _ => radixDigit b c = None end ->
  readDigits sign b (s ++ tail)
  = if sign then js_neg (Z2num (stringValue b s)) else Z2num (stringValue b s).
Proof.
  intros Hb [Hne Hall] Htail. unfold readDigits.
  rewrite digitsPrefix_app, digitsPrefix_digitString by (done || by apply digitString_radixDigit).
  destruct s as [|c rest]; [done|].
  assert (Hm : mathInt b ((fun c => default 0 (legalDigit b c)) <$> (c :: rest))
               = stringValue b (c :: rest)).
  { unfold mathInt. rewrite mathInt_stringValue. lia. }
  rewrite fmap_cons in *. cbv zeta iota beta. rewrite Hm.
  destruct (Z.eqb_spec (stringValue b (c :: rest)) 0) as [->|Hnz]; [by destruct sign|].
  destruct sign; [by apply Z2num_opp|done].
Qed.

(** [parseInt] on a string that starts neither with white space, nor with a
    sign, nor with a prefix it strips. *)
Lemma parseInt_plain b c rest :
  2 <= b <= 16 -> isWhiteSpace c = false -> c <> 45%N -> c <> 43%N ->
  (b = 16 -> c = 48%N ->
   match rest with [] => True | c1 :: _ => c1 <> 120%N /\ c1 <> 88%N end) ->
  parseInt (c :: rest) b = readDigits false b (c :: rest).
Proof.
  intros Hb Hws Hm Hp Hpre. unfold parseInt. simpl trimStart. rewrite Hws.
  rewrite (proj2 (N.eqb_neq c 45)), (proj2 (N.eqb_neq c 43)) by done.
  rewrite ToInt32_small by lia.
  replace (negb (b =? 0) && ((b <? 2) || (36 <? b))) with false.
  2:{ symmetry. apply andb_false_iff. right. apply orb_false_iff. split;
        [apply Z.ltb_ge|apply Z.ltb_ge]; lia. }
  rewrite (proj2 (Z.eqb_neq b 0)) by lia. rewrite orb_false_l.
  destruct rest as [|c1 rest']; [done|].
  destruct ((b =? 16) && (c =? 48)%N && ((c1 =? 120) || (c1 =? 88))%N) eqn:E; [|done].
  apply andb_true_iff in E as [[E1 E2]%andb_true_iff E3].
  apply Z.eqb_eq in E1. apply N.eqb_eq in E2.
  destruct (Hpre E1 E2) as [H1 H2].
  apply orb_true_iff in E3 as [E3|E3]; apply N.eqb_eq in E3; done.
Qed.


Lemma digit_not_x b c : b <= 16 -> is_Some (radixDigit b c) -> c <> 120%N /\ c <> 88%N.
Proof.
  intros Hb [d Hd]. split; intros ->;
    change (radixDigit b _) with (if 33 <? b then Some 33 else None) in Hd;
    by destruct (Z.ltb_spec 33 b); try lia.
Qed.

Lemma readDigits_not_nan sign b s tail :
  b <= 16 -> digitString b s ->
  match tail with [] => True | c :: _ => radixDigit b c = None end ->
  isNaN (readDigits sign b (s ++ tail)) = false.
Proof.
  intros Hb Hs Htail. rewrite readDigits_digitString by done.
  pose proof (Z2num_not_nan (stringValue b s)) as Hn.
  destruct sign; [|done]. by destruct (Z2num (stringValue b s)).
Qed.

Lemma readDigits_whole sign b s :
  b <= 16 -> digitString b s ->
  readDigits sign b s
  = (if sign then js_neg (Z2num (stringValue b s)) else Z2num (stringValue b s)) /\
  isNaN (readDigits sign b s) = false.
Proof.
  intros Hb Hs.
  pose proof (readDigits_digitString sign b s [] Hb Hs I) as H1.
  pose proof (readDigits_not_nan sign b s [] Hb Hs I) as H2.
  by rewrite app_nil_r in H1, H2.
Qed.

Lemma base_in_range b : 2 <= b <= 16 -> (b <? 2) || (16 <? b) = false.
Proof. intros Hb. apply orb_false_iff. split; apply Z.ltb_ge; lia. Qed.





(** X10: white space in front is ignored: where [convertToDecimal] returns
    a number for a string, it returns the same number for the string
    preceded by a white-space character. *)
Theorem convertToDecimal_whitespace w value b f :
  isWhiteSpace w = true -> convertToDecimal value b = Ok f ->
  convertToDecimal (w :: value) b = Ok f.
Proof.
  unfold convertToDecimal. intros Hw.
  destruct ((b <? 2) || (16 <? b)); [done|].
  destruct (length value =? 0)%nat; [done|]. simpl length. cbv iota.
  assert (parseInt (w :: value) b = parseInt value b) as ->;
    [|by destruct (isNaN (parseInt value b))].
  unfold parseInt. simpl trimStart. by rewrite Hw.
Qed.

Lemma convertToDecimal_whitespace_witness :
  convertToDecimal (32%N :: str "111") 2 = Ok (Z2num 7).
Proof. apply convertToDecimal_whitespace; reflexivity. Defined.



(** X12: for a base from 2 to 16, a string whose first character is
    neither white space, nor a sign, nor a digit of the base is rejected
    with the invalid-value error. *)
Theorem convertToDecimal_rejects b c rest :
  2 <= b <= 16 -> isWhiteSpace c = false -> c <> 45%N -> c <> 43%N ->
  radixDigit b c = None ->
  convertToDecimal (c :: rest) b = Err (InvalidValue (c :: rest) b).
Proof.
  intros Hb Hws Hm Hp Hc. unfold convertToDecimal. rewrite base_in_range by done.
  simpl length. cbv iota. rewrite parseInt_plain; [|done..|].
  - unfold readDigits. simpl. by rewrite Hc.
  - intros _ ->. exfalso.
    change (radixDigit b 48) with (if 0 <? b then Some 0 else None) in Hc.
    destruct (Z.ltb_spec 0 b); [done|lia].
Qed.

Lemma convertToDecimal_rejects_witness :
  convertToDecimal (str "9") 8 = Err (InvalidValue (str "9") 8).
Proof. apply convertToDecimal_rejects; (lia || reflexivity || discriminate). Defined.

Lemma legalDigit_lower b c :
  legalDigit b (if ((65 <=? c) && (c <=? 90))%N then (c + 32)%N else c) = legalDigit b c.
Proof.
  unfold legalDigit.
  assert (Hc : (c < 65 \/ 65 <= c <= 70 \/ 71 <= c <= 90 \/ 90 < c)%N) by lia.
  destruct Hc as [Hc|[Hc|[Hc|Hc]]];
    repeat match goal with
           | |- context [(?x <=? ?y)%N] =>
               ((rewrite (proj2 (N.leb_le x y)) by lia) ||
                (rewrite (proj2 (N.leb_gt x y)) by lia)); cbv [andb]
           end; try done.
  by replace (Z.of_N (c + 32) - 97 + 10) with (Z.of_N c - 65 + 10) by lia.
Qed.

(** X13: on a digit string of a base from 2 to 16 the case of the letters
    does not matter: the string and its lower-case form give the same
    result. *)
Theorem convertToDecimal_case b value :
  2 <= b <= 16 -> digitString b value ->
  convertToDecimal (asciiLowerCase value) b = convertToDecimal value b.
Proof.
  intros Hb [Hne Hall].
  rewrite !convertToDecimal_digitString; try done.
  - do 2 f_equal. unfold asciiLowerCase. clear Hne Hall.
    induction value as [|c value IH]; [done|].
    rewrite fmap_cons. simpl stringValue.
    by rewrite legalDigit_lower, length_fmap, IH.
  - split; [by destruct value|]. unfold asciiLowerCase. apply Forall_fmap.
    eapply Forall_impl; [done|]. intros c Hc. simpl. by rewrite legalDigit_lower.
Qed.

Lemma convertToDecimal_case_witness :
  convertToDecimal (str "c0ffee") 16 = convertToDecimal (str "C0FFEE") 16.
Proof.
  apply (convertToDecimal_case 16 (str "C0FFEE")); [lia|].
  split; [discriminate|forall_is_Some].
Defined.

(** X14: for a base from 2 to 16 and a string that starts with neither
    white space nor a sign (nor, in base 16, with the prefix 0x),
    [isValidNumber] is decided by the first character alone: it is true
    exactly when that character is a legal digit of the base. *)
Theorem isValidNumber_first_character b c rest :
  2 <= b <= 16 -> isWhiteSpace c = false -> c <> 45%N -> c <> 43%N ->
  (b = 16 -> c = 48%N ->
   match rest with [] => True | c1 :: _ => c1 <> 120%N /\ c1 <> 88%N end) ->
  isValidNumber (c :: rest) b = bool_decide (is_Some (legalDigit b c)).
Proof.
  intros Hb Hws Hm Hp Hpre. unfold isValidNumber, convertToDecimal.
  rewrite base_in_range by done. cbn [length Nat.eqb].
  rewrite parseInt_plain by done. rewrite legalDigit_radixDigit by lia.
  unfold readDigits. cbn [digitsPrefix].
  destruct (radixDigit b c) as [d|]; [|done].
  rewrite bool_decide_eq_true_2 by done.
  destruct (mathInt b (d :: digitsPrefix b rest) =? 0); [done|].
  by rewrite Z2num_not_nan.
Qed.

Lemma isValidNumber_first_character_witness :
  isValidNumber (str "1z") 2 = true /\ isValidNumber (str "z1") 2 = false.
Proof.
  change (str "1z") with (49%N :: str "z"). change (str "z1") with (122%N :: str "1").
  split.
  - rewrite (isValidNumber_first_character 2 49 (str "z"));
      [reflexivity|lia|reflexivity|discriminate|discriminate|discriminate].
  - rewrite (isValidNumber_first_character 2 122 (str "1"));
      [reflexivity|lia|reflexivity|discriminate|discriminate|discriminate].
Defined.

(** X15: in base 16, 0x or 0X followed by no hexadecimal digit is rejected
    as an invalid value, although the string starts with the legal digit 0
    and 0 alone is accepted. *)
Theorem convertToDecimal_bare_prefix x rest :
  x = 120%N \/ x = 88%N ->
  match rest with [] => True | c :: _ => radixDigit 16 c = None end ->
  convertToDecimal (48%N :: x :: rest) 16
  = Err (InvalidValue (48%N :: x :: rest) 16) /\
  convertToDecimal [48%N] 16 = Ok js_zero.
Proof.
  intros Hx Hrest. split; [|reflexivity]. unfold convertToDecimal.
  change ((16 <? 2) || (16 <? 16)) with false. cbn [length Nat.eqb]. cbv iota.
  assert (parseInt (48%N :: x :: rest) 16 = js_nan) as ->; [|done].
  unfold parseInt. cbn [trimStart]. change (isWhiteSpace 48) with false. cbv iota.
  change (48 =? 45)%N with false. change (48 =? 43)%N with false. cbv iota.
  rewrite ToInt32_small by lia.
  change (negb (16 =? 0) && ((16 <? 2) || (36 <? 16))) with false.
  change ((16 =? 0) || (16 =? 16)) with true. change (48 =? 48)%N with true.
  replace ((x =? 120) || (x =? 88))%N with true by (by destruct Hx as [-> | ->]).
  cbv beta iota zeta delta [andb].
  destruct rest as [|c rest]; [done|]. cbn [digitsPrefix]. by rewrite Hrest.
Qed.

Lemma convertToDecimal_bare_prefix_witness :
  convertToDecimal (str "0x") 16 = Err (InvalidValue (str "0x") 16) /\
  convertToDecimal (str "0") 16 = Ok js_zero.
Proof. apply (convertToDecimal_bare_prefix 120 []); [by left|exact I]. Defined.

(** ** Comparing doubles that hold integers *)

Lemma Z_compare_scale n m p : 0 < p -> (n * p ?= m * p) = (n ?= m).
Proof.
  intros Hp. destruct (Z.compare_spec n m) as [->|Hlt|Hlt].
  - apply Z.compare_refl.
  - apply Z.compare_lt_iff. by apply Z.mul_lt_mono_pos_r.
  - apply Z.compare_gt_iff. by apply Z.mul_lt_mono_pos_r.
Qed.

Lemma SFcompare_rep fa fb a b :
  rep fa a -> rep fb b -> SFcompare fa fb = Some (a ?= b).
Proof.
  intros Ha Hb.
  destruct (rep_inv _ _ Ha) as [[-> [sa ->]]|(sa & ma & ea & -> & _ & Hma & Hea & Hza & Hsa & Hva)];
  destruct (rep_inv _ _ Hb) as [[-> [sb ->]]|(sb & mb & eb & -> & _ & Hmb & Heb & Hzb & Hsb & Hvb)].
  - done.
  - unfold SFcompare. f_equal. destruct (Z.ltb_spec b 0); subst sb; symmetry;
      [apply Z.compare_gt_iff|apply Z.compare_lt_iff]; lia.
  - unfold SFcompare. f_equal. destruct (Z.ltb_spec a 0); subst sa; symmetry;
      [apply Z.compare_lt_iff|apply Z.compare_gt_iff]; lia.
  - pose proof (pow2_pos (ea + 52) ltac:(lia)) as Hpa.
    pose proof (pow2_pos (eb + 52) ltac:(lia)) as Hpb.
    assert (Hmag : match ea ?= eb with
                   | Lt => Z.abs a < Z.abs b
                   | Gt => Z.abs b < Z.abs a
                   | Eq => (Z.pos ma ?= Z.pos mb) = (Z.abs a ?= Z.abs b)
                   end).
    { destruct (Z.compare_spec ea eb) as [->|Hlt|Hlt].
      - rewrite <- (Z_compare_scale _ _ (2 ^ (eb + 52))) by done.
        rewrite <- (Z_compare_scale (Z.abs a) _ (2 ^ 52)) by lia.
        by rewrite Hva, Hvb.
      - assert (2 * 2 ^ (ea + 52) <= 2 ^ (eb + 52)).
        { replace (2 * 2 ^ (ea + 52)) with (2 ^ (ea + 52 + 1))
            by (rewrite (Z.pow_add_r 2 (ea + 52) 1) by lia; lia).
          apply Z.pow_le_mono_r; lia. }
        assert (Z.pos ma * 2 ^ (ea + 52) < Z.pos mb * 2 ^ (eb + 52)); [|lia].
        apply Z.lt_le_trans with (Z.pos mb * (2 * 2 ^ (ea + 52))).
        + rewrite Z.mul_assoc. apply Z.mul_lt_mono_pos_r; lia.
        + apply Z.mul_le_mono_nonneg_l; lia.
      - assert (2 * 2 ^ (eb + 52) <= 2 ^ (ea + 52)).
        { replace (2 * 2 ^ (eb + 52)) with (2 ^ (eb + 52 + 1))
            by (rewrite (Z.pow_add_r 2 (eb + 52) 1) by lia; lia).
          apply Z.pow_le_mono_r; lia. }
        assert (Z.pos mb * 2 ^ (eb + 52) < Z.pos ma * 2 ^ (ea + 52)); [|lia].
        apply Z.lt_le_trans with (Z.pos ma * (2 * 2 ^ (eb + 52))).
        + rewrite Z.mul_assoc. apply Z.mul_lt_mono_pos_r; lia.
        + apply Z.mul_le_mono_nonneg_l; lia. }
    unfold SFcompare. f_equal. change (Pos.compare_cont Eq ma mb) with (Z.pos ma ?= Z.pos mb).
    destruct (Z.ltb_spec a 0), (Z.ltb_spec b 0); subst sa sb; symmetry.
    + destruct (ea ?= eb).
      * rewrite Hmag. rewrite Z.compare_antisym.
        replace (Z.abs a) with (- a) by lia. replace (Z.abs b) with (- b) by lia.
        rewrite <- Z.compare_opp. by rewrite <- Z.compare_antisym, Z.compare_antisym.
      * apply Z.compare_gt_iff. lia.
      * apply Z.compare_lt_iff. lia.
    + apply Z.compare_lt_iff. lia.
    + apply Z.compare_gt_iff. lia.
    + destruct (ea ?= eb).
      * rewrite Hmag. f_equal; lia.
      * apply Z.compare_lt_iff. lia.
      * apply Z.compare_gt_iff. lia.
Qed.

Lemma js_lt_rep fa fb a b : rep fa a -> rep fb b -> js_lt fa fb = (a <? b).
Proof.
  intros Ha Hb. unfold js_lt, SFltb. rewrite (SFcompare_rep _ _ _ _ Ha Hb).
  unfold Z.ltb. by destruct (a ?= b).
Qed.

Lemma js_gt_rep fa fb a b : rep fa a -> rep fb b -> js_gt fa fb = (b <? a).
Proof. intros Ha Hb. unfold js_gt. by apply (js_lt_rep fb fa). Qed.

Lemma rep_small z : Z.abs z <= 2 ^ 53 -> rep (Z2num z) z.
Proof. intros Hz. by apply exact_rep, safe_exact. Qed.

Lemma truncate_num2Z f z : num2Z f = Some z -> truncate f = z.
Proof.
  destruct f as [s|s| |s m e]; simpl; try congruence.
  destruct (0 <=? e).
  - destruct s; simpl; congruence.
  - destruct (Z.pos m mod 2 ^ (- e) =? 0); [|destruct s; done].
    destruct s; simpl; congruence.
Qed.

(** ** [parseInt] without a radix *)

Lemma parseInt_plain0 c rest :
  isWhiteSpace c = false -> c <> 45%N -> c <> 43%N ->
  (c = 48%N ->
   match rest with [] => True | c1 :: _ => c1 <> 120%N /\ c1 <> 88%N end) ->
  parseInt (c :: rest) 0 = readDigits false 10 (c :: rest).
Proof.
  intros Hws Hm Hp Hpre. unfold parseInt. simpl trimStart. rewrite Hws.
  rewrite (proj2 (N.eqb_neq c 45)), (proj2 (N.eqb_neq c 43)) by done.
  rewrite ToInt32_small by lia. change (0 =? 0) with true.
  cbv beta iota zeta delta [negb andb orb].
  destruct rest as [|c1 rest']; [done|].
  destruct ((c =? 48)%N) eqn:E2; [|done].
  destruct ((c1 =? 120)%N) eqn:E3; [|destruct ((c1 =? 88)%N) eqn:E4; [|done]];
    apply N.eqb_eq in E2; destruct (Hpre E2) as [H1 H2];
    [apply N.eqb_eq in E3|apply N.eqb_eq in E4]; done.
Qed.

Lemma parseInt_decimal s :
  digitString 10 s -> parseInt s 0 = Z2num (stringValue 10 s).
Proof.
  intros Hs. pose proof Hs as [Hne Hall]. destruct s as [|c rest]; [done|].
  pose proof (Forall_inv Hall) as [d Hd]. rewrite legalDigit_radixDigit in Hd by lia.
  pose proof (radixDigit_range _ _ _ Hd) as [_ Hr].
  rewrite parseInt_plain0; [|by eapply isWhiteSpace_digit|lia|lia|].
  - by destruct (readDigits_whole false 10 (c :: rest)) as [-> _]; [lia|done|].
  - intros _. destruct rest as [|c1 rest]; [done|].
    apply (digit_not_x 10); [lia|].
    apply Forall_inv_tail, Forall_inv in Hall. destruct Hall as [d1 Hd1].
    rewrite legalDigit_radixDigit in Hd1 by lia. by exists d1.
Qed.

(** ** [convertToDecimal] on the values of the file *)

Lemma guard_rep fb b :
  rep fb b ->
  js_lt fb (Z2num 2) || js_gt fb (Z2num 16) = (b <? 2) || (16 <? b).
Proof.
  intros Hb.
  rewrite (js_lt_rep _ _ b 2 Hb), (js_gt_rep _ _ b 16 Hb); [done|..];
    by apply rep_small.
Qed.

(** ** The callers of [convertToDecimal] *)

Lemma JS_convertToDecimal_digitString fb b s :
  rep fb b -> 2 <= b <= 16 -> digitString b s ->
  JS.convertToDecimal (VJson (JStr s)) fb = Returns (Z2num (stringValue b s)).
Proof.
  intros Hfb Hb Hs. unfold JS.convertToDecimal.
  rewrite (guard_rep _ _ Hfb), (truncate_num2Z fb b) by apply Hfb.
  rewrite base_in_range by done.
  pose proof (convertToDecimal_digitString b s Hb Hs) as Hc.
  unfold convertToDecimal in Hc. rewrite base_in_range in Hc by done.
  destruct (length s =? 0)%nat; [done|].
  destruct (isNaN (parseInt s b)); [done|]. congruence.
Qed.



Lemma json_ind (P : json -> Prop) :
  P JNull -> (forall b, P (JBool b)) -> (forall n, P (JNum n)) ->
  (forall s, P (JStr s)) ->
  (forall items, Forall P items -> P (JArr items)) ->
  (forall fields, Forall (fun entry => P entry.2) fields -> P (JObj fields)) ->
  forall j, P j.
Proof.
  intros HNull HBool HNum HStr HArr HObj. fix IH 1. intros [|b|n|s|items|fields].
  - apply HNull.
  - apply HBool.
  - apply HNum.
  - apply HStr.
  - apply HArr. revert items. fix IHitems 1. intros [|item items].
    + constructor.
    + constructor; [apply IH|apply IHitems].
  - apply HObj. revert fields. fix IHfields 1. intros [|[key item] fields].
    + constructor.
    + constructor; [apply IH|apply IHfields].
Qed.

Section InputFacts.
Context `{NumberToString}.

Lemma Get_field fields name j :
  field fields name = Some j -> Get (VJson (JObj fields)) name = Returns (VJson j).
Proof. intros Hf. unfold Get. by rewrite Hf. Qed.

Lemma digitString_nonempty b s : digitString b s -> (length s =? 0)%nat = false.
Proof. intros [Hne _]. by destruct s. Qed.

Lemma Get_not_null j name e : Get (VJson j) name = Throws e -> j = JNull /\ e = NullProperty.
Proof. destruct j; simpl; try done. by intros [= <-]. Qed.

Lemma Get_twice j name name' v :
  Get (VJson j) name = Returns v -> exists v', Get (VJson j) name' = Returns v'.
Proof. destruct j; simpl; try done; eauto. Qed.

Lemma JS_convertToDecimal_exception value base e :
  JS.convertToDecimal value base = Throws e ->
  e <> NullProperty /\ e <> RootIncomplete.
Proof.
  unfold JS.convertToDecimal.
  repeat match goal with
         | |- context [if ?b then _ else _] => destruct b
         | |- context [match ?v with _ => _ end] => destruct v
         end; intros [= <-]; done.
Qed.

Lemma ToString_exception v e : ToString v = Throws e -> e = NotPrimitive.
Proof.
  destruct v as [| |j]; [done..|]. simpl.
  revert e. induction j as [|b|n|s|items IH|fields _] using json_ind; simpl;
    [discriminate..| |].
  - induction IH as [|item rest Hitem _ IHr]; [discriminate|]. intros e.
    simpl. cbv [mbind outcome_bind].
    match goal with
    | |- match ?x with _ => _ end = _ -> _ => destruct x as [s|e1] eqn:Ex
    end.
    + destruct rest as [|item' rest']; [discriminate|].
      destruct (joinElements _ (item' :: rest')) eqn:E; [discriminate|].
      intros [= <-]. by apply IHr.
    + intros [= <-]. destruct item; [discriminate|by apply Hitem in Ex..].
  - intros e. destruct (field fields (str "toString")); [by intros [= <-]|discriminate].
Qed.
End InputFacts.

Section Extract.
Context `{NumberToString}.

Lemma parseInt1_exception v e : parseInt1 v = Throws e -> e = NotPrimitive.
Proof.
  unfold parseInt1. destruct (ToString v) as [s|e'] eqn:Hs; [done|].
  intros [= <-]. by eapply ToString_exception.
Qed.

(** One iteration of the loop of [extractInputData] does what the
    callback of [convertRootsToDecimal] does. *)
Lemma extractRoots_cons key rootData properties roots :
  key <> str "keys" ->
  extractRoots ((key, rootData) :: properties) roots =
  match convertRoot rootData with
  | Returns decimal => extractRoots properties (roots ++ [decimal])
  | Throws e => Throws (rootException key e)
  end.
Proof.
  intros Hk. cbn [extractRoots]. rewrite bool_decide_eq_false_2 by done.
  unfold convertRoot, processRoot.
  destruct (Get (VJson rootData) (str "base")) as [base|e] eqn:Hbase;
    cbv [mbind outcome_bind].
  2:{ by apply Get_not_null in Hbase as [_ ->]. }
  destruct (ToBoolean base); [|done]. cbv [negb].
  destruct (Get (VJson rootData) (str "value")) as [value|e] eqn:Hvalue;
    cbv [mbind outcome_bind].
  2:{ by apply Get_not_null in Hvalue as [_ ->]. }
  destruct (ToBoolean value); [|done]. cbv [negb].
  destruct (parseInt1 base) as [b|e] eqn:Hp; cbv [mbind outcome_bind].
  2:{ by apply parseInt1_exception in Hp as ->. }
  destruct (JS.convertToDecimal value b) as [d|e] eqn:Hc; [done|].
  apply JS_convertToDecimal_exception in Hc. by destruct e, Hc.
Qed.

Lemma extractRoots_skip rootData properties roots :
  extractRoots ((str "keys", rootData) :: properties) roots
  = extractRoots properties roots.
Proof. cbn [extractRoots]. by rewrite bool_decide_eq_true_2. Qed.

Lemma rootEntries_cons key rootData properties :
  rootEntries ((key, rootData) :: properties) =
  if decide (key = str "keys") then rootEntries properties
  else (key, rootData) :: rootEntries properties.
Proof.
  unfold rootEntries. rewrite filter_cons. simpl.
  destruct (decide (key = str "keys")) as [->|Hne].
  - by rewrite decide_False by (intros Hn; by apply Hn).
  - by rewrite decide_True.
Qed.

Lemma extractRoots_Returns properties : forall roots r,
  extractRoots properties roots = Returns r <->
  exists decimals,
    convertRootsToDecimal ((rootEntries properties).*2) = Returns decimals /\
    r = roots ++ decimals.
Proof.
  induction properties as [|[key rootData] properties IH]; intros roots r.
  - simpl. split.
    + intros [= <-]. exists []. by rewrite app_nil_r.
    + intros (decimals & [= <-] & ->). by rewrite app_nil_r.
  - rewrite rootEntries_cons. destruct (decide (key = str "keys")) as [->|Hne].
    + rewrite extractRoots_skip. apply IH.
    + rewrite extractRoots_cons by done. rewrite fmap_cons.
      cbn [convertRootsToDecimal snd].
      destruct (convertRoot rootData) as [decimal|e]; cbv [mbind outcome_bind].
      * rewrite IH. split.
        -- intros (decimals & -> & ->). exists (decimal :: decimals).
           by rewrite <- app_assoc.
        -- intros (decimals & Hd & ->).
           destruct (convertRootsToDecimal (rootEntries properties).*2) as [ds|]; [|done].
           injection Hd as <-. exists ds. by rewrite <- app_assoc.
      * split; [done|]. by intros (decimals & Hd & _).
Qed.

(** What a successful call has checked. *)
Lemma extractInputData_Returns jsonData n k roots :
  extractInputData jsonData = Returns (n, k, roots) ->
  exists fields, jsonData = JObj fields /\
    ToBoolean (VJson (JNum n)) = true /\ isInteger n = true /\ js_lt n js_one = false /\
    ToBoolean (VJson (JNum k)) = true /\ isInteger k = true /\ js_lt k js_one = false /\
    js_gt k n = false /\
    extractRoots fields [] = Returns roots /\ roots <> [] /\
    js_lt (Z2num (Z.of_nat (length roots))) k = false.
Proof.
  unfold extractInputData.
  destruct (Get (VJson jsonData) (str "keys")) as [keys|] eqn:Hkeys;
    cbv [mbind outcome_bind]; [|done].
  destruct (ToBoolean keys) eqn:Tkeys; [|done]. cbv [negb].
  destruct (Get keys (str "n")) as [vn|] eqn:Hn; [|done].
  destruct (ToBoolean vn) eqn:Tn; [|done].
  destruct (Get keys (str "k")) as [vk|] eqn:Hk; [|done].
  destruct (ToBoolean vk) eqn:Tk; [|done].
  destruct vn as [| |[| |n'| | |]]; try done.
  destruct (isInteger n') eqn:In; [|done].
  destruct (js_lt n' js_one) eqn:Ln; [done|]. cbv [negb orb].
  destruct vk as [| |[| |k'| | |]]; try done.
  destruct (isInteger k') eqn:Ik; [|done].
  destruct (js_lt k' js_one) eqn:Lk; [done|].
  destruct (js_gt k' n') eqn:Gk; [done|]. cbv [negb orb].
  destruct (extractRoots (forIn jsonData) []) as [roots'|] eqn:Hroots; [|done].
  destruct (length roots' =? 0)%nat eqn:Hlen; [done|].
  destruct (js_lt (Z2num (Z.of_nat (length roots'))) k') eqn:Llen; [done|].
  intros [= <- <- <-].
  assert (exists fields, jsonData = JObj fields) as [fields ->].
  { destruct jsonData as [|b|f|s|items|fields]; [done|..|by eexists];
      cbv [Get] in Hkeys; injection Hkeys as <-; [done..|].
    by destruct (bool_decide (str "keys" = str "keys")). }
  exists fields. repeat split; try done. by destruct roots'.
Qed.
End Extract.

Section Callers.
Context `{NumberToString}.

Lemma rep_truthy f z : rep f z -> z <> 0 -> ToBoolean (VJson (JNum f)) = true.
Proof.
  intros Hr Hz.
  by destruct (rep_inv _ _ Hr) as [[-> _]|(s & m & e & -> & _)].
Qed.

Lemma rep_isInteger f z : rep f z -> isInteger f = true.
Proof. intros [_ Hz]. unfold isInteger. rewrite Hz. by apply bool_decide_eq_true_2. Qed.

Lemma rep_js_one : rep js_one 1.
Proof. vm_compute. split; reflexivity. Qed.

Lemma parseInt1_string s : parseInt1 (VJson (JStr s)) = Returns (parseInt s 0).
Proof. done. Qed.

Lemma convertRoot_wellFormed rootData z :
  wellFormedRoot rootData z -> convertRoot rootData = Returns (Z2num z).
Proof.
  intros (fields & base & value & -> & Hb & Hbd & Hbr & Hv & Hvd & ->).
  unfold convertRoot. rewrite (Get_field _ _ _ Hb), (Get_field _ _ _ Hv).
  cbv [mbind outcome_bind]. cbn [ToBoolean].
  rewrite (digitString_nonempty _ _ Hbd), (digitString_nonempty _ _ Hvd). cbv [negb].
  rewrite parseInt1_string, parseInt_decimal by done.
  apply JS_convertToDecimal_digitString; [|done..]. apply rep_small. lia.
Qed.

Lemma convertRootsToDecimal_wellFormed roots zs :
  Forall2 wellFormedRoot roots zs ->
  convertRootsToDecimal roots = Returns (Z2num <$> zs).
Proof.
  induction 1 as [|root z roots zs Hroot _ IH]; [done|].
  cbn [convertRootsToDecimal]. by rewrite (convertRoot_wellFormed _ _ Hroot), IH.
Qed.

Lemma convertRootsToDecimal_each roots decimals :
  convertRootsToDecimal roots = Returns decimals ->
  Forall2 (fun root decimal => convertRoot root = Returns decimal) roots decimals.
Proof.
  revert decimals. induction roots as [|root roots IH]; intros decimals.
  - intros [= <-]. constructor.
  - cbn [convertRootsToDecimal].
    destruct (convertRoot root) as [d|] eqn:Hd; cbv [mbind outcome_bind]; [|done].
    destruct (convertRootsToDecimal roots) as [ds|]; [|done].
    intros [= <-]. constructor; [done|by apply IH].
Qed.



(** X19: n and k are validated before any root is looked at: with an
    integer n >= 1 and an integer k that is negative or exceeds n,
    [extractInputData] throws the error on k, whatever the other entries
    of the file hold. *)
Theorem extractInputData_InvalidK fields keys fn fk n k :
  field fields (str "keys") = Some (JObj keys) ->
  field keys (str "n") = Some (JNum fn) -> rep fn n ->
  field keys (str "k") = Some (JNum fk) -> rep fk k ->
  1 <= n -> k < 0 \/ n < k ->
  extractInputData (JObj fields) = Throws (InvalidK fn).
Proof.
  intros Hkeys Hn Hrn Hk Hrk Hn1 Hkn. unfold extractInputData.
  rewrite (Get_field _ _ _ Hkeys). cbv [mbind outcome_bind]. cbn [ToBoolean negb].
  rewrite (Get_field _ _ _ Hn), (Get_field _ _ _ Hk).
  rewrite (rep_truthy _ _ Hrn), (rep_truthy _ _ Hrk) by lia. cbv [negb].
  rewrite (rep_isInteger _ _ Hrn), (rep_isInteger _ _ Hrk).
  rewrite (js_lt_rep _ _ n 1 Hrn rep_js_one), (js_lt_rep _ _ k 1 Hrk rep_js_one).
  rewrite (js_gt_rep _ _ k n Hrk Hrn).
  rewrite (proj2 (Z.ltb_ge n 1)) by lia. cbv [negb orb].
  destruct (Z.ltb_spec k 1); [done|].
  by rewrite (proj2 (Z.ltb_lt n k)) by lia.
Qed.

(** X20: an n or a k that is present but 0 is reported as missing: the
    test [!jsonData.keys.n || !jsonData.keys.k] takes 0 for absent. *)
Theorem extractInputData_zero fields keys vn vk s :
  field fields (str "keys") = Some (JObj keys) ->
  field keys (str "n") = Some vn -> field keys (str "k") = Some vk ->
  vn = JNum (S754_zero s) \/ vk = JNum (S754_zero s) ->
  extractInputData (JObj fields) = Throws MissingKeys.
Proof.
  intros Hkeys Hn Hk Hz. unfold extractInputData.
  rewrite (Get_field _ _ _ Hkeys). cbv [mbind outcome_bind]. cbn [ToBoolean negb].
  rewrite (Get_field _ _ _ Hn), (Get_field _ _ _ Hk).
  destruct Hz as [-> | ->]; [done|].
  by destruct (ToBoolean (VJson vn)).
Qed.

(** X21: a file whose top-level value is not an object never gets past the
    first test: [null] raises the TypeError of reading a property of null,
    and a number, a string, a boolean or an array (whose [keys] is a method
    without a property n) is reported as lacking [keys]. *)
Theorem extractInputData_not_object jsonData :
  (forall fields, jsonData <> JObj fields) ->
  extractInputData jsonData
  = Throws (match jsonData with JNull => NullProperty | _ => MissingKeys end).
Proof.
  intros Hobj. destruct jsonData as [|b|n|s|items|fields]; try done.
  by destruct (Hobj fields).
Qed.

(** X22: where [extractInputData] succeeds, the roots it returns are those
    [convertRootsToDecimal] returns for the entries of the file other than
    [keys]. *)
Theorem extractInputData_convertRootsToDecimal fields n k roots :
  extractInputData (JObj fields) = Returns (n, k, roots) ->
  convertRootsToDecimal (rootEntries fields).*2 = Returns roots.
Proof.
  intros Hex. apply extractInputData_Returns in Hex as (fields' & [= <-] & Hrest).
  destruct Hrest as (_ & _ & _ & _ & _ & _ & _ & Hroots & _).
  by apply extractRoots_Returns in Hroots as (decimals & Hd & ->).
Qed.

(** X23: every entry of the file is converted, not only the first k: one
    entry other than [keys] on which the conversion throws makes
    [extractInputData] throw, wherever the entry stands. *)
Theorem extractInputData_every_root fields key rootData e :
  (key, rootData) ∈ fields -> key <> str "keys" ->
  convertRoot rootData = Throws e ->
  exists e', extractInputData (JObj fields) = Throws e'.
Proof.
  intros Hin Hkey He.
  destruct (extractInputData (JObj fields)) as [[[n k] roots]|e'] eqn:Hex; [|by exists e'].
  exfalso. apply extractInputData_Returns in Hex as (fields' & [= <-] & Hrest).
  destruct Hrest as (_ & _ & _ & _ & _ & _ & _ & Hroots & _).
  apply extractRoots_Returns in Hroots as (decimals & Hd & _).
  apply convertRootsToDecimal_each in Hd.
  assert (Hin' : rootData ∈ (rootEntries fields).*2).
  { apply (list_elem_of_fmap_2 snd _ (key, rootData)).
    unfold rootEntries. by apply list_elem_of_filter. }
  apply list_elem_of_lookup in Hin' as [i Hi].
  destruct (Forall2_lookup_l _ _ _ _ _ Hd Hi) as (d & _ & Hconv). congruence.
Qed.

End Callers.



Lemma extractInputData_InvalidK_witness :
  extractInputData (printer := fun _ => [])
    (JObj [(str "1", JNull);
           (str "keys", JObj [(str "n", JNum (Z2num 2)); (str "k", JNum (Z2num 3))])])
  = Throws (InvalidK (Z2num 2)).
Proof.
  eapply (extractInputData_InvalidK (H := fun _ => []) _ _ _ _ 2 3).
  - reflexivity.
  - reflexivity.
  - vm_compute. split; reflexivity.
  - reflexivity.
  - vm_compute. split; reflexivity.
  - lia.
  - lia.
Defined.

Lemma extractInputData_zero_witness :
  extractInputData (printer := fun _ => [])
    (JObj [(str "keys", JObj [(str "n", JNum (Z2num 3)); (str "k", JNum (Z2num 0))]);
           (str "1", JObj [(str "base", JStr (str "10")); (str "value", JStr (str "4"))])])
  = Throws MissingKeys.
Proof.
  eapply (extractInputData_zero (H := fun _ => []) _ _ _ _ false).
  - reflexivity.
  - reflexivity.
  - reflexivity.
  - by right.
Defined.

Lemma extractInputData_not_object_witness :
  extractInputData (printer := fun _ => [])
    (JArr [JObj [(str "base", JStr (str "10")); (str "value", JStr (str "4"))]])
  = Throws MissingKeys.
Proof. by apply (extractInputData_not_object (H := fun _ => [])). Defined.

Lemma extractInputData_convertRootsToDecimal_witness :
  convertRootsToDecimal (printer := fun _ => [])
    [JObj [(str "base", JStr (str "16")); (str "value", JStr (str "ff"))];
     JObj [(str "base", JStr (str "2")); (str "value", JStr (str "101"))]]
  = Returns [Z2num 255; Z2num 5].
Proof.
  apply (extractInputData_convertRootsToDecimal (H := fun _ => [])
    [(str "a", JObj [(str "base", JStr (str "16")); (str "value", JStr (str "ff"))]);
     (str "keys", JObj [(str "n", JNum (Z2num 2)); (str "k", JNum (Z2num 1))]);
     (str "b", JObj [(str "base", JStr (str "2")); (str "value", JStr (str "101"))])]
    (Z2num 2) (Z2num 1)).
  reflexivity.
Defined.

Lemma extractInputData_every_root_witness :
  exists e',
    extractInputData (printer := fun _ => [])
      (JObj [(str "keys", JObj [(str "n", JNum (Z2num 2)); (str "k", JNum (Z2num 1))]);
             (str "1", JObj [(str "base", JStr (str "10")); (str "value", JStr (str "4"))]);
             (str "2", JObj [(str "base", JStr (str "2")); (str "value", JStr (str "9"))])])
    = Throws e'.
Proof.
  apply (extractInputData_every_root (H := fun _ => []) _ (str "2")
           (JObj [(str "base", JStr (str "2")); (str "value", JStr (str "9"))])
           (ValueInvalid (str "9") (Z2num 2))).
  - do 2 right. left.
  - discriminate.
  - reflexivity.
Defined.

Section Errors.
Context `{NumberToString}.

Lemma extractRoots_app properties1 properties2 : forall roots,
  extractRoots (properties1 ++ properties2) roots =
  match extractRoots properties1 roots with
  | Returns roots => extractRoots properties2 roots
  | Throws e => Throws e
  end.
Proof.
  induction properties1 as [|[key rootData] properties1 IH]; intros roots; [done|].
  rewrite <- app_comm_cons. destruct (decide (key = str "keys")) as [->|Hne].
  - rewrite !extractRoots_skip. apply IH.
  - rewrite !extractRoots_cons by done. by destruct (convertRoot rootData).
Qed.

(** The tests on [keys] passed: what is left of [extractInputData]. *)
Lemma extractInputData_validated fields keys fn fk n k :
  field fields (str "keys") = Some (JObj keys) ->
  field keys (str "n") = Some (JNum fn) -> rep fn n ->
  field keys (str "k") = Some (JNum fk) -> rep fk k ->
  1 <= k <= n ->
  extractInputData (JObj fields) =
  roots ← extractRoots fields [];
  if (length roots =? 0)%nat then Throws NoValidRoots
  else if js_lt (Z2num (Z.of_nat (length roots))) fk
  then Throws (InsufficientRoots (length roots) fk)
  else Returns (fn, fk, roots).
Proof.
  intros Hkeys Hn Hrn Hk Hrk Hkn. unfold extractInputData.
  rewrite (Get_field _ _ _ Hkeys). cbv [mbind outcome_bind]. cbn [ToBoolean negb].
  rewrite (Get_field _ _ _ Hn), (Get_field _ _ _ Hk).
  rewrite (rep_truthy _ _ Hrn), (rep_truthy _ _ Hrk) by lia. cbv [negb].
  rewrite (rep_isInteger _ _ Hrn), (rep_isInteger _ _ Hrk).
  rewrite (js_lt_rep _ _ n 1 Hrn rep_js_one), (js_lt_rep _ _ k 1 Hrk rep_js_one).
  rewrite (js_gt_rep _ _ k n Hrk Hrn).
  by rewrite (proj2 (Z.ltb_ge n 1)), (proj2 (Z.ltb_ge k 1)), (proj2 (Z.ltb_ge n k)) by lia.
Qed.

(** X24: with valid n and k, the first entry on which the conversion
    throws decides the error of [extractInputData]: a TypeError for a null
    entry, the error on the missing base or value where the callback of
    [convertRootsToDecimal] reports an incomplete root, and otherwise the
    error of the conversion, wrapped with the key of the entry. *)
Theorem extractInputData_first_failure fields keys fn fk n k before key rootData after decimals e :
  field fields (str "keys") = Some (JObj keys) ->
  field keys (str "n") = Some (JNum fn) -> rep fn n ->
  field keys (str "k") = Some (JNum fk) -> rep fk k ->
  1 <= k <= n ->
  fields = before ++ (key, rootData) :: after ->
  convertRootsToDecimal (rootEntries before).*2 = Returns decimals ->
  key <> str "keys" -> convertRoot rootData = Throws e ->
  extractInputData (JObj fields) = Throws (rootException key e).
Proof.
  intros Hkeys Hn Hrn Hk Hrk Hkn Hfields Hbefore Hkey He.
  rewrite (extractInputData_validated _ _ _ _ _ _ Hkeys Hn Hrn Hk Hrk Hkn).
  rewrite Hfields, extractRoots_app.
  assert (Hb : extractRoots before [] = Returns decimals).
  { apply extractRoots_Returns. by exists decimals. }
  by rewrite Hb, extractRoots_cons, He by done.
Qed.

(** X25: with valid n and k and well-formed roots, fewer roots than k are
    an error: the one on no valid root when there is none, otherwise the
    one on insufficient roots, with their number and k. *)
Theorem extractInputData_insufficient fields keys fn fk n k zs :
  field fields (str "keys") = Some (JObj keys) ->
  field keys (str "n") = Some (JNum fn) -> rep fn n ->
  field keys (str "k") = Some (JNum fk) -> rep fk k ->
  1 <= k <= n ->
  Forall2 wellFormedRoot (rootEntries fields).*2 zs ->
  Z.of_nat (length zs) < k -> Z.of_nat (length zs) < 2 ^ 32 ->
  extractInputData (JObj fields) =
  Throws (match zs with
          | [] => NoValidRoots
          | _ => InsufficientRoots (length zs) fk
          end).
Proof.
  intros Hkeys Hn Hrn Hk Hrk Hkn Hroots Hlen Hbound.
  rewrite (extractInputData_validated _ _ _ _ _ _ Hkeys Hn Hrn Hk Hrk Hkn).
  assert (Hex : extractRoots fields [] = Returns (Z2num <$> zs)).
  { apply extractRoots_Returns. exists (Z2num <$> zs).
    split; [by apply convertRootsToDecimal_wellFormed|done]. }
  rewrite Hex. cbv [mbind outcome_bind]. rewrite length_fmap.
  destruct zs as [|z zs]; [done|]. cbn [length Nat.eqb] in *.
  rewrite (js_lt_rep _ _ (Z.of_nat (S (length zs))) k); [|apply rep_small; lia|done].
  by rewrite (proj2 (Z.ltb_lt _ _)) by lia.
Qed.

(** X26: an n that is a non-empty string (even of digits) or a negative
    integer is rejected with the error on n, provided k is present and
    truthy. *)
Theorem extractInputData_InvalidN fields keys vn vk :
  field fields (str "keys") = Some (JObj keys) ->
  field keys (str "n") = Some vn -> field keys (str "k") = Some vk ->
  ToBoolean (VJson vk) = true ->
  (exists s, vn = JStr s /\ s <> []) \/ (exists fn n, vn = JNum fn /\ rep fn n /\ n < 0) ->
  extractInputData (JObj fields) = Throws InvalidN.
Proof.
  intros Hkeys Hn Hk Tk Hvn. unfold extractInputData.
  rewrite (Get_field _ _ _ Hkeys). cbv [mbind outcome_bind]. cbn [ToBoolean negb].
  rewrite (Get_field _ _ _ Hn), (Get_field _ _ _ Hk), Tk.
  destruct Hvn as [(s & -> & Hs)|(fn & n & -> & Hrn & Hneg)].
  - by destruct s.
  - rewrite (rep_truthy _ _ Hrn) by lia. cbv [negb].
    rewrite (rep_isInteger _ _ Hrn), (js_lt_rep _ _ n 1 Hrn rep_js_one).
    by rewrite (proj2 (Z.ltb_lt n 1)) by lia.
Qed.
End Errors.

Lemma extractInputData_first_failure_witness :
  extractInputData (printer := fun _ => [])
    (JObj [(str "keys", JObj [(str "n", JNum (Z2num 3)); (str "k", JNum (Z2num 1))]);
           (str "1", JObj [(str "base", JStr (str "10")); (str "value", JStr (str "4"))]);
           (str "2", JObj [(str "base", JStr (str "2")); (str "value", JStr (str "9"))]);
           (str "3", JNull)])
  = Throws (RootError (str "2") (ValueInvalid (str "9") (Z2num 2))).
Proof.
  apply (extractInputData_first_failure (H := fun _ => []) _
           [(str "n", JNum (Z2num 3)); (str "k", JNum (Z2num 1))] (Z2num 3) (Z2num 1) 3 1
           [(str "keys", JObj [(str "n", JNum (Z2num 3)); (str "k", JNum (Z2num 1))]);
            (str "1", JObj [(str "base", JStr (str "10")); (str "value", JStr (str "4"))])]
           (str "2") (JObj [(str "base", JStr (str "2")); (str "value", JStr (str "9"))])
           [(str "3", JNull)] [Z2num 4] (ValueInvalid (str "9") (Z2num 2))).
  - reflexivity.
  - reflexivity.
  - vm_compute. split; reflexivity.
  - reflexivity.
  - vm_compute. split; reflexivity.
  - lia.
  - reflexivity.
  - reflexivity.
  - discriminate.
  - reflexivity.
Defined.

Lemma extractInputData_insufficient_witness :
  extractInputData (printer := fun _ => [])
    (JObj [(str "keys", JObj [(str "n", JNum (Z2num 5)); (str "k", JNum (Z2num 3))]);
           (str "1", JObj [(str "base", JStr (str "10")); (str "value", JStr (str "4"))]);
           (str "2", JObj [(str "base", JStr (str "2")); (str "value", JStr (str "111"))])])
  = Throws (InsufficientRoots 2 (Z2num 3)).
Proof.
  eapply (extractInputData_insufficient (H := fun _ => []) _ _ _ _ 5 3 [4; 7]).
  - reflexivity.
  - reflexivity.
  - vm_compute. split; reflexivity.
  - reflexivity.
  - vm_compute. split; reflexivity.
  - lia.
  - repeat constructor;
      (eexists _, _, _; split; [reflexivity|]; split; [reflexivity|];
       split; [split; [discriminate|forall_is_Some]|];
       split; [vm_compute; split; discriminate|];
       split; [reflexivity|];
       split; [split; [discriminate|forall_is_Some]|reflexivity]).
  - simpl. lia.
  - simpl. lia.
Defined.

Lemma extractInputData_InvalidN_witness :
  extractInputData (printer := fun _ => [])
    (JObj [(str "keys", JObj [(str "n", JStr (str "4")); (str "k", JNum (Z2num 3))])])
  = Throws InvalidN.
Proof.
  eapply (extractInputData_InvalidN (H := fun _ => [])).
  - reflexivity.
  - reflexivity.
  - reflexivity.
  - reflexivity.
  - left. eexists. split; [reflexivity|discriminate].
Defined.

Section Main.
Context `{NumberToString}.

(** A truthy integer that is not below 1 is at least 1, also when the
    double is not in canonical form. *)
Lemma truncate_positive k :
  isInteger k = true -> js_lt k js_one = false ->
  ToBoolean (VJson (JNum k)) = true -> 1 <= truncate k.
Proof.
  intros Hint Hlt Htrue. apply bool_decide_eq_true_1 in Hint as [z Hz].
  destruct k as [s|s| |s m e]; try done.
  destruct s; [done|]. simpl in *.
  destruct (0 <=? e) eqn:He.
  - apply Z.leb_le in He. pose proof (pow2_pos e He). nia.
  - destruct (Z.pos m mod 2 ^ (- e) =? 0) eqn:Hmod; [|done].
    apply Z.eqb_eq in Hmod. apply Z.leb_gt in He.
    pose proof (pow2_pos (- e) ltac:(lia)) as Hp.
    pose proof (Z.div_mod (Z.pos m) (2 ^ (- e)) ltac:(lia)) as Hdm.
    rewrite Hmod in Hdm. nia.
Qed.

Lemma slice0_nonempty {A} (roots : list A) k :
  roots <> [] -> 1 <= truncate k -> slice0 roots k <> [].
Proof.
  intros Hne Hk. unfold slice0. destruct roots as [|root roots]; [done|].
  destruct k as [s|s| |s m e]; try (simpl in Hk; lia).
  rewrite (proj2 (Z.ltb_ge _ _)) by lia.
  assert (exists n, Z.to_nat (Z.min (truncate (S754_finite s m e))
                                (Z.of_nat (length (root :: roots)))) = S n) as [n ->].
  { exists (Z.to_nat (Z.min (truncate (S754_finite s m e))
                            (Z.of_nat (length (root :: roots)))) - 1)%nat.
    cbn [length]. lia. }
  done.
Qed.

(** X27: once [extractInputData] has returned, the rest of [main] does not
    throw: the first k roots are not empty, [buildPolynomial] returns one
    coefficient more than roots used, the last of them 1, and those
    coefficients go to [verifyRoots] with the same roots. *)
Theorem main_solver jsonData n k roots :
  extractInputData jsonData = Returns (n, k, roots) ->
  exists coefficients,
    main jsonData = Returns (coefficients, verifyRoots coefficients (slice0 roots k)) /\
    buildPolynomial (slice0 roots k) = Ok coefficients /\
    length coefficients = S (length (slice0 roots k)) /\
    last coefficients = Some js_one.
Proof.
  intros Hex. unfold main. rewrite Hex. cbv [mbind outcome_bind].
  apply extractInputData_Returns in Hex as (fields & _ & _ & _ & _ & Tk & Ik & Lk & _ & _ & Hne & _).
  pose proof (slice0_nonempty roots k Hne (truncate_positive k Ik Lk Tk)) as Hs.
  destruct (slice0 roots k) as [|root used] eqn:Hused; [done|].
  destruct (buildPolynomial_leading root used) as (p & Hp & Hlen & Hlast).
  exists p. rewrite Hp. cbn [solver]. done.
Qed.
End Main.

Lemma main_solver_witness :
  exists coefficients,
    main (printer := fun _ => [])
      (JObj [(str "keys", JObj [(str "n", JNum (Z2num 4)); (str "k", JNum (Z2num 3))]);
             (str "1", JObj [(str "base", JStr (str "10")); (str "value", JStr (str "4"))]);
             (str "2", JObj [(str "base", JStr (str "2")); (str "value", JStr (str "111"))]);
             (str "3", JObj [(str "base", JStr (str "10")); (str "value", JStr (str "12"))]);
             (str "6", JObj [(str "base", JStr (str "4")); (str "value", JStr (str "213"))])])
    = Returns (coefficients, verifyRoots coefficients (Z2num <$> [4; 7; 12])) /\
    buildPolynomial (Z2num <$> [4; 7; 12]) = Ok coefficients /\
    length coefficients = 4%nat /\
    last coefficients = Some js_one.
Proof.
  change (Z2num <$> [4; 7; 12])
    with (slice0 (Z2num <$> [4; 7; 12; 39]) (Z2num 3)).
  change 4%nat with (S (length (slice0 (Z2num <$> [4; 7; 12; 39]) (Z2num 3)))).
  apply (main_solver (H := fun _ => []) _ (Z2num 4) (Z2num 3) (Z2num <$> [4; 7; 12; 39])).
  reflexivity.
Defined.

Section Format.
Context `{NumberToString}.

(** X28: for two or more coefficients that are all zero [formatPolynomial]
    returns the empty string: every term is skipped. *)
Theorem formatPolynomial_zero coefficients :
  (2 <= length coefficients)%nat ->
  Forall (fun c => exists s, c = S754_zero s) coefficients ->
  formatPolynomial coefficients = [].
Proof.
  intros Hlen Hzero. unfold formatPolynomial.
  destruct coefficients as [|c0 [|c1 coefficients]]; [simpl in Hlen; lia..|].
  rewrite foldl_id_in; [done|].
  intros terms i Hi. unfold formatTerm.
  apply elem_of_reverse, elem_of_seq in Hi.
  match goal with
  | |- context [js_eq ?c js_zero] => assert (exists s, c = S754_zero s) as [s ->]
  end; [|done].
  eapply (proj1 (Forall_lookup _ _) Hzero i). apply lookup_get, Hi.
Qed.
End Format.

Lemma formatPolynomial_zero_witness :
  formatPolynomial (printer := fun _ => str "0") [S754_zero false; S754_zero true] = [].
Proof.
  apply (formatPolynomial_zero (H := fun _ => str "0")).
  - simpl. lia.
  - repeat constructor; by eexists.
Defined.

Section Pipeline.
Context `{NumberToString}.

Lemma slice0_rep {A} (roots : list A) k zk :
  rep k zk -> 0 <= zk <= Z.of_nat (length roots) ->
  slice0 roots k = take (Z.to_nat zk) roots.
Proof.
  intros Hk Hzk. unfold slice0. rewrite (truncate_num2Z k zk) by apply Hk.
  rewrite (proj2 (Z.ltb_ge _ _)) by lia. rewrite Z.min_l by lia.
  by destruct (rep_inv _ _ Hk) as [[-> [s ->]]|(s & m & e & -> & _)].
Qed.

Lemma JS_convertToDecimal_not_nan value base decimal :
  JS.convertToDecimal value base = Returns decimal -> isNaN decimal = false.
Proof.
  unfold JS.convertToDecimal.
  destruct (js_lt base (Z2num 2) || js_gt base (Z2num 16)); [done|].
  destruct value as [| |[| | |s| |]]; try done.
  destruct (length s =? 0)%nat; [done|].
  destruct (isNaN (parseInt s (truncate base))) eqn:E; [done|]. by intros [= <-].
Qed.

Lemma convertRoot_not_nan rootData decimal :
  convertRoot rootData = Returns decimal -> isNaN decimal = false.
Proof.
  unfold convertRoot.
  destruct (Get (VJson rootData) (str "base")) as [base|]; cbv [mbind outcome_bind]; [|done].
  destruct (negb (ToBoolean base)); [done|].
  destruct (Get (VJson rootData) (str "value")) as [value|]; [|done].
  destruct (negb (ToBoolean value)); [done|].
  destruct (parseInt1 base) as [b|]; [|done].
  apply JS_convertToDecimal_not_nan.
Qed.

Lemma isInteger_rep f :
  isInteger f = true -> valid_binary prec emax f = true -> exists z, rep f z.
Proof.
  intros Hint Hvalid. apply bool_decide_eq_true_1 in Hint as [z Hz]. by exists z.
Qed.

(** What the validation of [extractInputData] has established about [k]
    and the number of roots. *)
Lemma extractInputData_k jsonData n k roots zk :
  extractInputData jsonData = Returns (n, k, roots) ->
  rep k zk -> Z.of_nat (length roots) < 2 ^ 32 ->
  1 <= zk <= Z.of_nat (length roots).
Proof.
  intros Hex Hk Hlen.
  apply extractInputData_Returns in Hex
    as (fields & _ & _ & _ & _ & _ & _ & Lk & _ & _ & _ & Llen).
  rewrite (js_lt_rep _ _ zk 1 Hk rep_js_one) in Lk.
  rewrite (js_lt_rep _ _ (Z.of_nat (length roots)) zk) in Llen;
    [|apply rep_small; lia|done].
  apply Z.ltb_ge in Lk, Llen. lia.
Qed.

(** X29: what a caller may rely on after [extractInputData]: n and k are
    integers with 1 <= k <= n, there are at least k roots, so that
    [roots.slice(0, k)] has exactly k elements, and no root is NaN. *)
Theorem extractInputData_postcondition jsonData n k roots :
  extractInputData jsonData = Returns (n, k, roots) ->
  valid_binary prec emax n = true -> valid_binary prec emax k = true ->
  Z.of_nat (length roots) < 2 ^ 32 ->
  exists zn zk,
    rep n zn /\ rep k zk /\ 1 <= zk <= zn /\ zk <= Z.of_nat (length roots) /\
    slice0 roots k = take (Z.to_nat zk) roots /\
    Forall (fun root => isNaN root = false) roots.
Proof.
  intros Hex Hvn Hvk Hlen.
  pose proof Hex as (fields & -> & _ & In & _ & _ & Ik & _ & Gk & Hroots & _)%extractInputData_Returns.
  destruct (isInteger_rep n In Hvn) as [zn Hn].
  destruct (isInteger_rep k Ik Hvk) as [zk Hk].
  pose proof (extractInputData_k _ _ _ _ _ Hex Hk Hlen) as Hzk.
  rewrite (js_gt_rep _ _ zk zn Hk Hn) in Gk. apply Z.ltb_ge in Gk.
  exists zn, zk. split; [done|]. split; [done|]. split; [lia|]. split; [lia|]. split.
  - apply slice0_rep; [done|lia].
  - apply extractRoots_Returns in Hroots as (decimals & Hd & ->).
    apply convertRootsToDecimal_each in Hd. rewrite app_nil_l.
    apply Forall_lookup. intros i d Hi.
    destruct (Forall2_lookup_r _ _ _ _ _ Hd Hi) as (root & _ & Hroot).
    by eapply convertRoot_not_nan.
Qed.

(** X30: when the roots [extractInputData] returns are integers and no sum
    or product, in building the polynomial of the first k roots and in
    evaluating it at them, leaves the integers a double holds exactly,
    [main] computes the coefficients of (x - r1)...(x - rk) and the verdict
    [true]. *)
Theorem main_exact jsonData n k roots zk zs p :
  extractInputData jsonData = Returns (n, k, roots) ->
  rep k zk -> Forall2 rep roots zs -> Z.of_nat (length roots) < 2 ^ 32 ->
  buildPolynomial (Some <$> take (Z.to_nat zk) zs) = Ok (Some <$> p) ->
  Forall (fun z => is_Some (evaluatePolynomial (Some <$> p) (Some z)))
    (take (Z.to_nat zk) zs) ->
  main jsonData = Returns (Z2num <$> p, true) /\
  forall x, polyval p x = root_product (take (Z.to_nat zk) zs) x.
Proof.
  intros Hex Hk Hrep Hlen Hrun Heval.
  pose proof (extractInputData_k _ _ _ _ _ Hex Hk Hlen) as Hzk.
  destruct (buildPolynomial_checked _ _ Hrun) as [HZ Hnum].
  assert (Hused : Forall2 rep (take (Z.to_nat zk) roots) (take (Z.to_nat zk) zs))
    by by apply Forall2_take.
  destruct (Hnum _ Hused) as [Hp Hcs].
  assert (Hpoly : forall x, polyval p x = root_product (take (Z.to_nat zk) zs) x).
  { intros x. rewrite (buildPolynomial_expand _ _ HZ), polyval_expand. simpl. lia. }
  split; [|done].
  unfold main. rewrite Hex. cbv [mbind outcome_bind].
  rewrite (slice0_rep roots k zk Hk) by lia. rewrite Hp. cbn [solver].
  do 2 f_equal. apply verifyRoots_Forall.
  apply Forall_lookup. intros i root Hroot.
  destruct (Forall2_lookup_l _ _ _ _ _ Hused Hroot) as (z & Hz & Hrz).
  destruct (proj1 (Forall_lookup _ _) Heval _ _ Hz) as [v Hv].
  destruct (evaluatePolynomial_checked _ _ _ Hv) as [Hval Hev].
  rewrite (Hev _ _ Hcs Hrz), <- Hval, evaluatePolynomial_polyval, Hpoly.
  rewrite root_product_root; [done|]. by eapply list_elem_of_lookup_2.
Qed.
End Pipeline.

Lemma extractInputData_postcondition_witness :
  exists zn zk,
    rep (Z2num 4) zn /\ rep (Z2num 3) zk /\ 1 <= zk <= zn /\
    zk <= Z.of_nat (length (Z2num <$> [4; 7; 12; 39])) /\
    slice0 (Z2num <$> [4; 7; 12; 39]) (Z2num 3)
    = take (Z.to_nat zk) (Z2num <$> [4; 7; 12; 39]) /\
    Forall (fun root => isNaN root = false) (Z2num <$> [4; 7; 12; 39]).
Proof.
  apply (extractInputData_postcondition (H := fun _ => [])
    (JObj [(str "keys", JObj [(str "n", JNum (Z2num 4)); (str "k", JNum (Z2num 3))]);
           (str "1", JObj [(str "base", JStr (str "10")); (str "value", JStr (str "4"))]);
           (str "2", JObj [(str "base", JStr (str "2")); (str "value", JStr (str "111"))]);
           (str "3", JObj [(str "base", JStr (str "10")); (str "value", JStr (str "12"))]);
           (str "6", JObj [(str "base", JStr (str "4")); (str "value", JStr (str "213"))])])).
  - reflexivity.
  - reflexivity.
  - reflexivity.
  - simpl. lia.
Defined.

Lemma main_exact_witness :
  main (printer := fun _ => [])
    (JObj [(str "keys", JObj [(str "n", JNum (Z2num 4)); (str "k", JNum (Z2num 3))]);
           (str "1", JObj [(str "base", JStr (str "10")); (str "value", JStr (str "4"))]);
           (str "2", JObj [(str "base", JStr (str "2")); (str "value", JStr (str "111"))]);
           (str "3", JObj [(str "base", JStr (str "10")); (str "value", JStr (str "12"))]);
           (str "6", JObj [(str "base", JStr (str "4")); (str "value", JStr (str "213"))])])
  = Returns (Z2num <$> [-336; 160; -23; 1], true) /\
  forall x, polyval [-336; 160; -23; 1] x = root_product [4; 7; 12] x.
Proof.
  apply (main_exact (H := fun _ => []) _ (Z2num 4) (Z2num 3) (Z2num <$> [4; 7; 12; 39])
           3 [4; 7; 12; 39]).
  - reflexivity.
  - vm_compute. split; reflexivity.
  - rep_list.
  - simpl. lia.
  - vm_compute. reflexivity.
  - forall_is_Some.
Defined.
